(** * IBC transfer load generator: the send loop and the multi-chain fan-out

    A shallow embedding of [cmd/tester/cmd/ibcmuilttransfer.go]
    ([IBCMuiltTransferCmd], [SrcChainsend], [DstChainsend]) and of the
    single-chain command [IBCtransferCmd], followed by the properties of
    the block-by-block send loop, of the argument checks and of the
    fan-out that the specification states.

    The chain node, the signer, the message builder and the configuration
    reader are collaborators of the commands.  They are gathered in a
    [World]: one answer function per call, which sees everything the task
    has done so far (its [History]), so that any sequence of answers a real
    node can give is the behaviour of some [World]. *)

From Stdlib Require Import ZArith Lia Bool Ascii String List.
From stdpp Require Import gmap strings list fin_maps.
Import ListNotations.

Local Open Scope Z_scope.

(** ** Machine integers *)

(** Go's [uint64], [int64] and [int] (64 bits on the supported platforms)
    are integers with wrap-around. *)
Definition u64 (z : Z) : Z := z mod 2 ^ 64.
Definition i64 (z : Z) : Z := (z + 2 ^ 63) mod 2 ^ 64 - 2 ^ 63.

Definition max_u64 : Z := 2 ^ 64 - 1.
Definition min_i64 : Z := - 2 ^ 63.
Definition max_i64 : Z := 2 ^ 63 - 1.

(** The application response code of a full mempool
    ([resp.TxResponse.Code == 0x14]). *)
Definition mempool_full : Z := 20.

(** ** Results of calls *)

(** What a collaborator hands back: Go's [(value, err)] pair. *)
Inductive reply (A : Type) : Type :=
| Ok (a : A)
| Err (e : string).
Arguments Ok {A} a.
Arguments Err {A} e.

(** How a function of the commands ends: it returns a value, returns an
    error, panics (an index out of range), or the loop fuel of the model
    is used up ([NoFuel] is shown never to happen). *)
Inductive outcome (A : Type) : Type :=
| Done (a : A)
| Fail (e : string)
| Panic
| NoFuel.
Arguments Done {A} a.
Arguments Fail {A} e.
Arguments Panic {A}.
Arguments NoFuel {A}.

(** ** Data of the commands *)

(** [config.IBCchain], with the fields the commands read. *)
Record IBCchain : Type := {
  ChainId : string;
  Rpc : string;
  Grpc : string;
  TokenDenom : string;
  AccountHD : string;
  AccountaddrPrefix : string;
  DstAddress : string
}.

(** The zero value of [config.IBCchain] ([var mainchain config.IBCchain]). *)
Definition zero_chain : IBCchain :=
  {| ChainId := EmptyString; Rpc := EmptyString; Grpc := EmptyString;
     TokenDenom := EmptyString; AccountHD := EmptyString;
     AccountaddrPrefix := EmptyString; DstAddress := EmptyString |}.

(** [config.Config]: [cfg.IBCconfig.Chains] and the [cfg.Custom] fields. *)
Record Config : Type := {
  Chains : list IBCchain;
  Mnemonics : list string;
  GasLimit : Z;
  FeeAmount : Z;
  Memo : string
}.

(** [grpc.OpenChannel]: one entry of a chain's routing table. *)
Record OpenChannel : Type := {
  ClientChainId : string;
  ChannelId : string
}.

Record Coin : Type := { Denom : string; Amount : Z }.

Definition Msgs : Type := list string.
Definition TxBytes : Type := string.

(** ** Events *)

Inductive Level : Type := LDebug | LInfo | LWarn.

(** A field of a structured log line.  A field the code renders from a
    time or a duration is recorded by its integer value. *)
Inductive Field : Type :=
| FInt (key : string) (v : Z)
| FStr (key : string) (v : string).

(** One entry per call to a collaborator, with its answer, and one per
    log line.  [EvBroadcastTx accSeq tx r] is the call
    [BroadcastTx(ctx, txByte)] on the bytes [tx] that [IbcSign] made at
    sequence number [accSeq]. *)
Inductive Event : Type :=
| EvSetLogger (r : reply unit)
| EvConfigRead (r : reply Config)
| EvNewClient (rpc grpc : string) (r : reply unit)
| EvAllChainsTrace (r : reply (list OpenChannel))
| EvGetNetworkChainID (r : reply string)
| EvGetBaseAccountInfo (addr : string) (r : reply (Z * Z))
| EvStatus (r : reply Z)
| EvWaitForHeight (h : Z) (r : reply unit)
| EvCreateTransferBot (srcPort srcChannel : string) (coin : Coin)
    (sender receiver : string) (msgNum : Z) (r : reply Msgs)
| EvIbcSign (accSeq accNum : Z) (msgs : Msgs) (r : reply TxBytes)
| EvBroadcastTx (accSeq : Z) (tx : TxBytes) (r : reply Z)
| EvBlock (h : Z) (r : reply (Z * Z))
| EvLog (lvl : Level) (msg : string) (fields : list Field).

(** The events of a task so far, the latest first. *)
Definition History : Type := list Event.

(** ** The collaborators *)

Record World : Type := {
  SetLogger : History -> reply unit;
  ConfigRead : History -> reply Config;
  NewClient : History -> string -> string -> reply unit;
  AllChainsTrace : History -> reply (list OpenChannel);
  GetNetworkChainID : History -> reply string;
  ParseCoinNormalized : string -> reply Coin;
  (** [ibctypes.ParseDenomTrace(denom).IBCDenom()] *)
  IBCDenom : string -> string;
  (** [wallet.IBCRecoverAccountFromMnemonic(mnemonic, "", hd, prefix)]:
      the address and the private key *)
  IBCRecoverAccountFromMnemonic :
    string -> string -> string -> reply (string * string);
  (** the account's sequence and account number *)
  GetBaseAccountInfo : History -> string -> reply (Z * Z);
  (** [st.SyncInfo.LatestBlockHeight] *)
  Status : History -> reply Z;
  WaitForHeight : History -> Z -> reply unit;
  CreateTransferBot :
    History -> string -> string -> Coin -> string -> string -> Z -> reply Msgs;
  IbcSign : History -> Z -> Z -> string -> Msgs -> reply TxBytes;
  (** [resp.TxResponse.Code] *)
  BroadcastTx : History -> TxBytes -> reply Z;
  (** [r.Block.Time] and [len(r.Block.Txs)] *)
  Block : History -> Z -> reply (Z * Z)
}.

(** ** The monad of a task: a history and an outcome *)

Definition M (A : Type) : Type := History -> History * outcome A.

Definition ret {A : Type} (a : A) : M A := fun h => (h, Done a).

Definition bind {A B : Type} (m : M A) (k : A -> M B) : M B :=
  fun h =>
    match m h with
    | (h', Done a) => k a h'
    | (h', Fail e) => (h', Fail e)
    | (h', Panic) => (h', Panic)
    | (h', NoFuel) => (h', NoFuel)
    end.

Notation "x <- m ;; k" := (bind m (fun x => k))
  (at level 100, m at next level, right associativity).
Notation "m ;;; k" := (bind m (fun _ => k))
  (at level 100, right associativity).

Definition fail {A : Type} (e : string) : M A := fun h => (h, Fail e).
Definition panic {A : Type} : M A := fun h => (h, Panic).
Definition nofuel {A : Type} : M A := fun h => (h, NoFuel).

(** A log line. *)
Definition log (lvl : Level) (msg : string) (fields : list Field) : M unit :=
  fun h => (EvLog lvl msg fields :: h, Done tt).

(** A call to a collaborator: [ask] is its answer in the present history,
    [ev] the event recorded, [wrap] what the caller makes of an error
    ([fmt.Errorf("...: %s", err)], or the error as it is). *)
Definition call {A : Type} (ask : History -> reply A)
    (ev : reply A -> Event) (wrap : string -> string) : M A :=
  fun h =>
    let r := ask h in
    (ev r :: h,
     match r with
     | Ok a => Done a
     | Err e => Fail (wrap e)
     end).

(** [fmt.Errorf(prefix + "%s", err)] *)
Definition errorf (prefix : string) (e : string) : string :=
  String.append prefix e.

(** ** The send loop

    The loop of [DstChainsend] (lines 230-297) and of [IBCtransferCmd]
    (lines 138-203).  The two are the same code but for the fields of the
    "block committed" line and a debug line of the single-chain command;
    a [Task] holds what the loop reads and never changes. *)

Record Task : Type := {
  srcPort : string;
  srcChannel : string;
  receiver : string;
  coin : Coin;
  accAddr : string;
  privKey : string;
  accNum : Z;
  blocks : Z;
  txNum : Z;
  msgNum : Z;
  (** [Str("srcchain", ...)] and [Str("dstchain", ...)] of [DstChainsend] *)
  chainFields : list Field;
  (** the line "took %s broadcasting txs" of [IBCtransferCmd] *)
  debugTook : bool
}.

(** The variables the loop updates; [blockTimes] is the
    [map[int64]time.Time], a time being its count of nanoseconds. *)
Record LoopState : Type := {
  targetHeight : Z;
  accSeq : Z;
  blockTimes : gmap Z Z
}.

(** [t.Sub(u)]: the difference, kept within the range of a [Duration]. *)
Definition time_sub (t u : Z) : Z :=
  Z.max min_i64 (Z.min max_i64 (t - u)).

Section SendLoop.

Variable w : World.
Variable t : Task.

(** The inner [for sent < txNum]: sign, broadcast, count.  The result is
    [sent], [accSeq] and whether the loop left through [break loop]. *)
Fixpoint signLoop (fuel : nat) (msgs : Msgs) (sent seq : Z)
  : M (Z * Z * bool) :=
  if sent <? txNum t then
    match fuel with
    | O => nofuel
    | S fuel' =>
      txByte <- call (fun h => IbcSign w h seq (accNum t) (privKey t) msgs)
                  (EvIbcSign seq (accNum t) msgs)
                  (errorf "failed to sign and broadcast: ");;
      code <- call (fun h => BroadcastTx w h txByte)
                (EvBroadcastTx seq txByte)
                (errorf "broadcast tx: ");;
      let seq1 := u64 (seq + 1) in
      if negb (code =? 0) then
        if code =? mempool_full then
          log LWarn "mempool is full, stopping" [];;;
          ret (sent, u64 (seq1 - 1), true)
        else signLoop fuel' msgs (i64 (sent + 1)) seq1
      else signLoop fuel' msgs (i64 (sent + 1)) seq1
    end
  else ret (sent, seq, false).

(** The outer [for sent < txNum], labelled [loop]: build the messages,
    then run the inner loop.  The result is [sent] and [accSeq]. *)
Fixpoint fillLoop (fuel : nat) (sent seq : Z) : M (Z * Z) :=
  if sent <? txNum t then
    match fuel with
    | O => nofuel
    | S fuel' =>
      msgs <- call (fun h => CreateTransferBot w h (srcPort t) (srcChannel t)
                               (coin t) (accAddr t) (receiver t) (msgNum t))
                (EvCreateTransferBot (srcPort t) (srcChannel t) (coin t)
                   (accAddr t) (receiver t) (msgNum t))
                (errorf "failed to create msg: ");;
      r <- signLoop (Z.to_nat (txNum t - sent)) msgs sent seq;;
      match r with
      | (sent', seq', true) => ret (sent', seq')
      | (sent', seq', false) => fillLoop fuel' sent' seq'
      end
    end
  else ret (sent, seq).

(** [sent := 0] and the labelled loop: the filling of one block. *)
Definition fillBlock (seq : Z) : M (Z * Z) :=
  fillLoop (Z.to_nat (txNum t)) 0 seq.

(** The height check that opens an iteration (lines 231-238). *)
Definition driftCheck (target : Z) : M Z :=
  got <- call (Status w) EvStatus (errorf "get status: ");;
  if negb (got =? i64 (target - 1)) then
    log LWarn "mismatching block height"
      [FInt "expected" (i64 (target - 1)); FInt "got" got];;;
    ret (i64 (got + 1))
  else ret target.

(** The end of an iteration (lines 271-296): wait for the target height,
    fetch its block, compute the duration from the time kept for the
    height before, keep the time of this block, log, advance. *)
Definition recordBlock (target sent : Z) (times : gmap Z Z)
  : M (Z * gmap Z Z) :=
  call (fun h => WaitForHeight w h target) (EvWaitForHeight target)
    (errorf "wait for height: ");;;
  r <- call (fun h => Block w h target) (EvBlock target) (fun e => e);;
  let '(btime, ntxs) := r in
  dt <- match times !! i64 (target - 1) with
        | None =>
          log LWarn "past block time not found" [];;;
          ret (0, times)
        | Some bt =>
          ret (time_sub btime bt, delete (i64 (target - 1)) times)
        end;;
  let '(blockDuration, times1) := dt in
  let times2 := <[target := btime]> times1 in
  log LInfo "block committed"
    (FInt "height" target :: chainFields t ++
     [FInt "block-time" btime; FInt "block-duration" blockDuration;
      FInt "broadcast-txs" sent; FInt "committed-txs" ntxs]);;;
  ret (i64 (target + 1), times2).

(** An iteration after its height check (lines 240-296), [target] being
    the target height the check settled on. *)
Definition iterationBody (s : LoopState) (target : Z) : M LoopState :=
  f <- fillBlock (accSeq s);;
  let '(sent, seq) := f in
  (if debugTook t then log LDebug "took %s broadcasting txs" [] else ret tt);;;
  r <- recordBlock target sent (blockTimes s);;
  let '(target', times') := r in
  ret {| targetHeight := target'; accSeq := seq; blockTimes := times' |}.

(** One iteration of [for i := 0; i < blocks; i++]. *)
Definition iteration (s : LoopState) : M LoopState :=
  target <- driftCheck (targetHeight s);;
  iterationBody s target.

Fixpoint blockLoop (fuel : nat) (i : Z) (s : LoopState) : M LoopState :=
  if i <? blocks t then
    match fuel with
    | O => nofuel
    | S fuel' =>
      s' <- iteration s;;
      blockLoop fuel' (i64 (i + 1)) s'
    end
  else ret s.

Definition sendLoop (s : LoopState) : M LoopState :=
  blockLoop (Z.to_nat (blocks t)) 0 s.

End SendLoop.

(** ** Library functions of Go the commands call *)

(** The value of a decimal digit. *)
Definition digit_of (c : ascii) : option Z :=
  let n := Z.of_nat (nat_of_ascii c) in
  if (48 <=? n) && (n <=? 57) then Some (n - 48) else None.

Fixpoint parse_digits (s : string) (acc : Z) : option Z :=
  match s with
  | EmptyString => Some acc
  | String c s' =>
    match digit_of c with
    | Some d => parse_digits s' (acc * 10 + d)
    | None => None
    end
  end.

(** [strconv.Atoi]: an optional sign, then one decimal digit or more, the
    value within the range of an [int]; [None] is a returned error. *)
Definition Atoi (s : string) : option Z :=
  match s with
  | EmptyString => None
  | String c rest =>
    let neg := Ascii.eqb c "-" in
    let body := if neg || Ascii.eqb c "+" then rest else s in
    match body with
    | EmptyString => None
    | _ =>
      match parse_digits body 0 with
      | Some n =>
        let v := if neg then - n else n in
        if (min_i64 <=? v) && (v <=? max_i64) then Some v else None
      | None => None
      end
    end
  end.

(** [strings.Split(s, ",")] *)
Fixpoint Split (s : string) : list string :=
  match s with
  | EmptyString => [EmptyString]
  | String c s' =>
    if Ascii.eqb c "," then EmptyString :: Split s'
    else match Split s' with
         | x :: xs => String c x :: xs
         | [] => [String c EmptyString]
         end
  end.

(** [strings.HasPrefix(s, "ibc/")] *)
Definition HasPrefix_ibc (s : string) : bool := String.prefix "ibc/" s.

(** ** Start of a task and its loop *)

(** [args[i]]; out of range is a panic. *)
Definition arg (args : list string) (i : nat) : M string :=
  match nth_error args i with
  | Some a => ret a
  | None => panic
  end.

(** The answer of a call that does not touch the node. *)
Definition lift {A : Type} (r : reply A) (wrap : string -> string) : M A :=
  match r with
  | Ok a => ret a
  | Err e => fail (wrap e)
  end.

(** [if !strings.HasPrefix(coin.Denom, "ibc/") { ... }] *)
Definition ibcCoin (w : World) (c : Coin) : Coin :=
  if negb (HasPrefix_ibc (Denom c))
  then {| Denom := IBCDenom w (Denom c); Amount := Amount c |}
  else c.

(** From [GetBaseAccountInfo] to the end of the command
    ([DstChainsend] lines 210-298, [IBCtransferCmd] lines 118-205).
    [mk] makes the task from the account number; [tag] is the chain id
    that [DstChainsend] adds to its two starting lines. *)
Definition startAndLoop (w : World) (addr : string) (mk : Z -> Task)
    (tag : list Field) : M LoopState :=
  account <- call (fun h => GetBaseAccountInfo w h addr)
               (EvGetBaseAccountInfo addr)
               (errorf "failed to get account information: ");;
  let seq0 := u64 (fst account) in
  let t := mk (u64 (snd account)) in
  st <- call (Status w) EvStatus (errorf "get status: ");;
  let startingHeight := i64 (st + 2) in
  log LInfo
    "current block height is %d, waiting for the next block to be committed"
    (FInt "height" st :: tag);;;
  call (fun h => WaitForHeight w h (i64 (startingHeight - 1)))
    (EvWaitForHeight (i64 (startingHeight - 1)))
    (errorf "wait for height: ");;;
  log LInfo "starting simulation #%d, blocks = %d, num txs per block = %d"
    (FInt "simulation" (i64 (blocks t + 1)) :: FInt "blocks" (blocks t)
     :: FInt "txs" (txNum t) :: tag);;;
  sendLoop w t
    {| targetHeight := startingHeight; accSeq := seq0; blockTimes := ∅ |}.

(** The three run parameters, read with [strconv.Atoi]; [shown] is the
    argument each error message prints. *)
Definition parseRun (sBlocks sTxNum sMsgNum : string)
    (shownBlocks shownTxNum shownMsgNum : string) (labelMsgNum : string)
  : M (Z * Z * Z) :=
  match Atoi sBlocks with
  | None => fail (errorf "blocks must be integer: " shownBlocks)
  | Some nblocks =>
    match Atoi sTxNum with
    | None => fail (errorf "txNum must be integer: " shownTxNum)
    | Some ntx =>
      match Atoi sMsgNum with
      | None => fail (errorf labelMsgNum shownMsgNum)
      | Some nmsg => ret (nblocks, ntx, nmsg)
      end
    end
  end.

(** ** [DstChainsend] *)

(** Lines 165-176: the routing entry of the destination, if there is one. *)
Fixpoint route (infos : list OpenChannel) (dst : IBCchain)
  : string * string * string :=
  match infos with
  | [] => (""%string, ""%string, ""%string)
  | i :: rest =>
    if String.eqb (ChainId dst) (ClientChainId i)
    then ("transfer"%string, ChannelId i, DstAddress dst)
    else route rest dst
  end.

Definition DstChainsend (w : World) (accountindex : nat)
    (dstchaininfo : IBCchain) (mainchainibcinfo : list OpenChannel)
    (mainchain : IBCchain) (cfg : Config) (args : list string)
  : M LoopState :=
  call (GetNetworkChainID w) EvGetNetworkChainID (fun e => e);;;
  let '(port, channel, recv) := route mainchainibcinfo dstchaininfo in
  a2 <- arg args 2;;
  c <- lift (ParseCoinNormalized w (String.append a2 (TokenDenom mainchain))) (fun e => e);;
  mnemonic <- match nth_error (Mnemonics cfg) accountindex with
              | Some m => ret m
              | None => panic
              end;;
  acc <- lift (IBCRecoverAccountFromMnemonic w mnemonic (AccountHD mainchain)
                 (AccountaddrPrefix mainchain))
           (errorf "failed to retrieve account from mnemonic: ");;
  let '(addr, key) := acc in
  let c := ibcCoin w c in
  a3 <- arg args 3;;
  a4 <- arg args 4;;
  a5 <- arg args 5;;
  a0 <- arg args 0;;
  p <- parseRun a3 a4 a5 a0 a0 a0 "txNum must be integer: ";;
  let '(nblocks, ntx, nmsg) := p in
  startAndLoop w addr
    (fun num =>
       {| srcPort := port; srcChannel := channel; receiver := recv;
          coin := c; accAddr := addr; privKey := key; accNum := num;
          blocks := nblocks; txNum := ntx; msgNum := nmsg;
          chainFields := [FStr "srcchain" (ChainId mainchain);
                          FStr "dstchain" (ChainId dstchaininfo)];
          debugTook := false |})
    [FStr "chain" (ChainId mainchain)].

(** ** [SrcChainsend] *)

(** Lines 116-121: the first configured chain of that id, or the zero
    value. *)
Fixpoint findChain (chains : list IBCchain) (chainname : string) : IBCchain :=
  match chains with
  | [] => zero_chain
  | c :: rest =>
    if String.eqb (ChainId c) chainname then c else findChain rest chainname
  end.

(** Lines 124-132, for one destination name: nothing when the name is
    the source chain's, else the first configured chain of that id. *)
Fixpoint pickSubchain (chains : list IBCchain) (mainchain : IBCchain)
    (chainname : string) : list IBCchain :=
  match chains with
  | [] => []
  | c :: rest =>
    if String.eqb chainname (ChainId mainchain) then []
    else if String.eqb (ChainId c) chainname then [c]
    else pickSubchain rest mainchain chainname
  end.

Definition subchainsOf (cfg : Config) (mainchain : IBCchain)
    (dstchains : list string) : list IBCchain :=
  flat_map (pickSubchain (Chains cfg) mainchain) dstchains.

(** The arguments of one [go func ... DstChainsend(...)]. *)
Record DstCall : Type := {
  dc_index : nat;
  dc_dstchaininfo : IBCchain;
  dc_mainchainibcinfo : list OpenChannel;
  dc_mainchain : IBCchain
}.

(** [for index, dstchaininfo := range subchains] *)
Fixpoint spawnDst (index : nat) (subchains : list IBCchain)
    (infos : list OpenChannel) (mainchain : IBCchain) : list DstCall :=
  match subchains with
  | [] => []
  | d :: rest =>
    {| dc_index := index; dc_dstchaininfo := d;
       dc_mainchainibcinfo := infos; dc_mainchain := mainchain |}
    :: spawnDst (S index) rest infos mainchain
  end.

(** [SrcChainsend] up to the goroutines it starts: the result is the
    list of the [DstChainsend] calls, which then run side by side, each
    on its own; the function waits for them and returns [nil]. *)
Definition SrcChainsend (w : World) (cfg : Config) (dstchains : list string)
    (chainname : string) : M (list DstCall) :=
  let mainchain := findChain (Chains cfg) chainname in
  let subchains := subchainsOf cfg mainchain dstchains in
  call (fun h => NewClient w h (Rpc mainchain) (Grpc mainchain))
    (EvNewClient (Rpc mainchain) (Grpc mainchain))
    (errorf "failed to connect clients: ");;;
  infos <- call (AllChainsTrace w) EvAllChainsTrace (fun e => e);;
  ret (spawnDst 0 subchains infos mainchain).

(** ** [IBCMuiltTransferCmd] *)

(** Lines 62-69: the [flag] after the scan of the configured chains. *)
Fixpoint chainFlag (chains : list IBCchain) (name : string) : bool :=
  match chains with
  | [] => false
  | c :: rest =>
    if String.eqb (ChainId c) name then true else chainFlag rest name
  end.

(** Lines 61-73 and 76-88: every name must raise the flag. *)
Fixpoint checkChains (chains : list IBCchain) (names : list string)
    (msg : string) : M unit :=
  match names with
  | [] => ret tt
  | n :: rest =>
    if negb (chainFlag chains n) then fail msg
    else checkChains chains rest msg
  end.

(** [cobra.ExactArgs(n)] *)
Definition ExactArgs (n : nat) (args : list string) : M unit :=
  if Nat.eqb (length args) n then ret tt
  else fail "accepts a fixed number of arg(s)".

(** The command up to the goroutines it starts: the result is the
    configuration, the destination names and the source names, one
    [SrcChainsend(ctx, cmd, cfg, dstchains, chainname, args)] being
    started per source name; the command waits for them and returns
    [nil]. *)
Definition IBCMuiltTransferCmd (w : World) (args : list string)
  : M (Config * list string * list string) :=
  ExactArgs 6 args;;;
  call (SetLogger w) EvSetLogger (fun e => e);;;
  cfg <- call (ConfigRead w) EvConfigRead
           (errorf "failed to read config file: ");;
  a0 <- arg args 0;;
  let srcchains := Split a0 in
  checkChains (Chains cfg) srcchains
    "the entered src chains does not exist in config";;;
  a1 <- arg args 1;;
  let dstchains := Split a1 in
  checkChains (Chains cfg) dstchains
    "the entered dst chains does not exist in config";;;
  let DstchainsSize := length dstchains in
  let MnemonicsSize := length (Mnemonics cfg) in
  if Nat.ltb MnemonicsSize DstchainsSize then
    fail "the number of ibcconfig and mnemics is different"
  else ret (cfg, dstchains, srcchains).

(** ** [IBCtransferCmd] *)

Definition IBCtransferCmd (w : World) (args : list string) : M LoopState :=
  ExactArgs 8 args;;;
  call (SetLogger w) EvSetLogger (fun e => e);;;
  cfg <- call (ConfigRead w) EvConfigRead
           (errorf "failed to read config file: ");;
  a0 <- arg args 0;;
  let mainchain := findChain (Chains cfg) a0 in
  call (fun h => NewClient w h (Rpc mainchain) (Grpc mainchain))
    (EvNewClient (Rpc mainchain) (Grpc mainchain))
    (errorf "failed to connect clients: ");;;
  call (GetNetworkChainID w) EvGetNetworkChainID
    (errorf "failed to get chain id: ");;;
  port <- arg args 1;;
  channel <- arg args 2;;
  recv <- arg args 3;;
  a4 <- arg args 4;;
  c <- lift (ParseCoinNormalized w a4) (fun e => e);;
  let c := ibcCoin w c in
  a5 <- arg args 5;;
  a6 <- arg args 6;;
  a7 <- arg args 7;;
  p <- parseRun a5 a6 a7 a5 a6 a7 "msgNum must be integer: ";;
  let '(nblocks, ntx, nmsg) := p in
  mnemonic <- match nth_error (Mnemonics cfg) 0 with
              | Some m => ret m
              | None => panic
              end;;
  acc <- lift (IBCRecoverAccountFromMnemonic w mnemonic (AccountHD mainchain)
                 (AccountaddrPrefix mainchain))
           (errorf "failed to retrieve account from mnemonic: ");;
  let '(addr, key) := acc in
  startAndLoop w addr
    (fun num =>
       {| srcPort := port; srcChannel := channel; receiver := recv;
          coin := c; accAddr := addr; privKey := key; accNum := num;
          blocks := nblocks; txNum := ntx; msgNum := nmsg;
          chainFields := []; debugTook := true |})
    [].

(** ** Reading a history *)

Definition is_status (e : Event) : bool :=
  match e with EvStatus _ => true | _ => false end.

Definition is_broadcast (e : Event) : bool :=
  match e with EvBroadcastTx _ _ _ => true | _ => false end.

Definition is_sign (e : Event) : bool :=
  match e with EvIbcSign _ _ _ _ => true | _ => false end.

Definition is_create (e : Event) : bool :=
  match e with EvCreateTransferBot _ _ _ _ _ _ _ => true | _ => false end.

(** A broadcast the node turned down for a full mempool. *)
Definition is_saturation (e : Event) : bool :=
  match e with
  | EvBroadcastTx _ _ (Ok code) => code =? mempool_full
  | _ => false
  end.

(** A broadcast the loop counts in [sent]. *)
Definition is_counted (e : Event) : bool :=
  match e with
  | EvBroadcastTx _ _ (Ok code) => negb (code =? mempool_full)
  | _ => false
  end.

Definition is_drift_warning (e : Event) : bool :=
  match e with
  | EvLog LWarn msg _ => String.eqb msg "mismatching block height"
  | _ => false
  end.

Definition is_log (e : Event) : bool :=
  match e with EvLog _ _ _ => true | _ => false end.

Definition count (p : Event -> bool) (h : History) : nat :=
  length (List.filter p h).

(** The history in the order of time. *)
Definition chrono (h : History) : list Event := rev h.

(** ** A scripted node

    A world in which every call succeeds: the [n]-th [Status] answers the
    [n]-th of [heights], the [n]-th [BroadcastTx] the [n]-th of [codes]
    (0 past the end of either list), the account is at sequence [seq0]. *)
Definition scripted (cfg : Config) (routes : list OpenChannel)
    (seq0 : Z) (heights codes : list Z) : World :=
  {| SetLogger := fun _ => Ok tt;
     ConfigRead := fun _ => Ok cfg;
     NewClient := fun _ _ _ => Ok tt;
     AllChainsTrace := fun _ => Ok routes;
     GetNetworkChainID := fun _ => Ok "gaia"%string;
     ParseCoinNormalized := fun s => Ok {| Denom := s; Amount := 10 |};
     IBCDenom := fun s => String.append "ibc/" s;
     IBCRecoverAccountFromMnemonic :=
       fun m _ prefix => Ok (String.append prefix m, m);
     GetBaseAccountInfo := fun _ _ => Ok (seq0, 3);
     Status := fun h => Ok (nth (count is_status h) heights 0);
     WaitForHeight := fun _ _ => Ok tt;
     CreateTransferBot := fun _ _ _ _ _ recv n => Ok [recv];
     IbcSign := fun _ _ _ _ _ => Ok "signed"%string;
     BroadcastTx := fun h _ => Ok (nth (count is_broadcast h) codes 0);
     Block := fun _ height => Ok (height * 1000, 0) |}.

Definition chain (id : string) : IBCchain :=
  {| ChainId := id; Rpc := "rpc"; Grpc := "grpc"; TokenDenom := "uatom";
     AccountHD := "hd"; AccountaddrPrefix := "cosmos";
     DstAddress := String.append "addr-" id |}.

Definition cfg3 : Config :=
  {| Chains := [chain "gaia"; chain "iris"; chain "osmo"];
     Mnemonics := ["m0"; "m1"; "m2"]%string;
     GasLimit := 200000; FeeAmount := 1; Memo := "" |}.

Definition task0 (nblocks ntx : Z) : Task :=
  {| srcPort := "transfer"; srcChannel := "channel-0"; receiver := "r";
     coin := {| Denom := "ibc/x"; Amount := 10 |}; accAddr := "a";
     privKey := "k"; accNum := 3; blocks := nblocks; txNum := ntx;
     msgNum := 1; chainFields := []; debugTook := false |}.

Definition state0 (target seq : Z) : LoopState :=
  {| targetHeight := target; accSeq := seq; blockTimes := ∅ |}.

(** A node that rejects the second of five transactions. *)
Definition world_saturated : World := scripted cfg3 [] 7 [9] [0; 20].

(** A node that answers the first broadcast with code 5. *)
Definition world_code5 : World := scripted cfg3 [] 7 [9] [5].

(** A node that accepts everything. *)
Definition world_ok : World := scripted cfg3 [] 7 [9] [].

(** A node whose height has run ahead by the second iteration, and that
    rejects the third broadcast. *)
Definition world_drift : World := scripted cfg3 [] 7 [9; 15] [0; 5; 20; 0].

Definition run_drift : History :=
  fst (sendLoop world_drift (task0 2 3) (state0 10 7) []).

(** A routing table that knows "osmo" only. *)
Definition routes_osmo : list OpenChannel :=
  [ {| ClientChainId := "osmo"; ChannelId := "channel-7" |} ].

(** The sequence number that follows a broadcast signed at [s] and
    answered with [code]. *)
Definition seq_after (s code : Z) : Z :=
  if code =? mempool_full then s else u64 (s + 1).

(** ** What a computation adds to the history

    [emits Q m]: from any history, [m] only adds events, and each event it
    adds satisfies [Q]. *)
Definition emits {A : Type} (Q : Event -> Prop) (m : M A) : Prop :=
  forall h, exists evs, fst (m h) = evs ++ h /\ Forall Q evs.

(** ** The events of each part of the loop *)

(** What the inner loop can add when it signs [msgs]. *)
Inductive sign_event (t : Task) (msgs : Msgs) : Event -> Prop :=
| se_sign s r : sign_event t msgs (EvIbcSign s (accNum t) msgs r)
| se_broadcast s tx r : sign_event t msgs (EvBroadcastTx s tx r)
| se_full : sign_event t msgs (EvLog LWarn "mempool is full, stopping" []).

(** What the end of an iteration can add. *)
Inductive record_event : Event -> Prop :=
| re_wait h r : record_event (EvWaitForHeight h r)
| re_block h r : record_event (EvBlock h r)
| re_past : record_event (EvLog LWarn "past block time not found" [])
| re_committed fields : record_event (EvLog LInfo "block committed" fields).

(** What an iteration can add after its height check. *)
Inductive body_event (t : Task) : Event -> Prop :=
| be_create r :
    body_event t (EvCreateTransferBot (srcPort t) (srcChannel t) (coin t)
                    (accAddr t) (receiver t) (msgNum t) r)
| be_sign msgs e : sign_event t msgs e -> body_event t e
| be_took : body_event t (EvLog LDebug "took %s broadcasting txs" [])
| be_record e : record_event e -> body_event t e.

(** What the height check can add. *)
Inductive drift_event : Event -> Prop :=
| de_status r : drift_event (EvStatus r)
| de_drift fields :
    drift_event (EvLog LWarn "mismatching block height" fields).

(** What the send loop can add. *)
Inductive loop_event (t : Task) : Event -> Prop :=
| le_drift e : drift_event e -> loop_event t e
| le_body e : body_event t e -> loop_event t e.

(** ** The sequence numbers of a history

    [SeqLog start h cur]: the broadcasts of [h] were signed at the
    sequence numbers that follow from [start], each broadcast fixing the
    number of the next through [seq_after]; [cur] is the number the next
    broadcast is to be signed at, and there is none after a broadcast
    that failed in transport. *)
Inductive SeqLog (start : Z) : History -> option Z -> Prop :=
| sl_nil : SeqLog start [] (Some start)
| sl_other e h cur :
    is_broadcast e = false -> SeqLog start h cur -> SeqLog start (e :: h) cur
| sl_ok s tx code h :
    SeqLog start h (Some s) ->
    SeqLog start (EvBroadcastTx s tx (Ok code) :: h) (Some (seq_after s code))
| sl_err s tx e h :
    SeqLog start h (Some s) ->
    SeqLog start (EvBroadcastTx s tx (Err e) :: h) None.

(** ** The set-up of a command *)

(** The calls a command makes before it reads its run parameters. *)
Inductive setup_event : Event -> Prop :=
| su_logger r : setup_event (EvSetLogger r)
| su_config r : setup_event (EvConfigRead r)
| su_client rpc grpc r : setup_event (EvNewClient rpc grpc r)
| su_chainid r : setup_event (EvGetNetworkChainID r).

(** An argument that reads as a non-negative integer. *)
Definition is_nonneg_int (s : string) : bool :=
  match Atoi s with
  | Some n => 0 <=? n
  | None => false
  end.

(** ** Routing *)

(** No entry of the routing table names the destination chain. *)
Definition no_route (infos : list OpenChannel) (dst : IBCchain) : bool :=
  forallb (fun i => negb (String.eqb (ChainId dst) (ClientChainId i))) infos.

(** The messages of [e], if it builds any, are built with this port,
    channel and receiver. *)
Definition built_with (port channel recv : string) (e : Event) : Prop :=
  match e with
  | EvCreateTransferBot p c _ _ r _ _ => p = port /\ c = channel /\ r = recv
  | _ => True
  end.

(** The events of [startAndLoop] before its loop. *)
Inductive start_event : Event -> Prop :=
| st_account addr r : start_event (EvGetBaseAccountInfo addr r)
| st_status r : start_event (EvStatus r)
| st_wait h r : start_event (EvWaitForHeight h r)
| st_info msg fields : start_event (EvLog LInfo msg fields).

(** A history in which messages were built, signed and broadcast, one
    call after the other. *)
Definition has_send (evs : list Event) : Prop :=
  exists newer s n msgs tx r port channel c sender recv k older,
    evs = newer ++ EvBroadcastTx s tx r
                :: EvIbcSign s n msgs (Ok tx)
                :: EvCreateTransferBot port channel c sender recv k (Ok msgs)
                :: older.

(** The collaborators a task calls up to its first broadcast all
    answer. *)
Record cooperative (w : World) : Prop := {
  co_chainid : forall h, exists x, GetNetworkChainID w h = Ok x;
  co_coin : forall s, exists x, ParseCoinNormalized w s = Ok x;
  co_recover :
    forall m hd p, exists x, IBCRecoverAccountFromMnemonic w m hd p = Ok x;
  co_account : forall h a, exists x, GetBaseAccountInfo w h a = Ok x;
  co_status : forall h, exists x, Status w h = Ok x;
  co_wait : forall h z, exists x, WaitForHeight w h z = Ok x;
  co_create :
    forall h p c coin s r n,
      exists x, CreateTransferBot w h p c coin s r n = Ok x;
  co_sign : forall h s n k m, exists x, IbcSign w h s n k m = Ok x
}.

(** [Paired h]: every broadcast of [h] comes right after the signature
    that made its bytes, at the same sequence number. *)
Inductive Paired : History -> Prop :=
| pa_nil : Paired []
| pa_other e h : is_broadcast e = false -> Paired h -> Paired (e :: h)
| pa_send s n msgs tx r h :
    Paired h ->
    Paired (EvBroadcastTx s tx r :: EvIbcSign s n msgs (Ok tx) :: h).

(** ** Predicates on computations *)

(** What a part of the loop does to the sequence number: from a number
    [seq] in range it adds events that form a [SeqLog] from [seq], up to
    the number it hands on, which is in range again. *)
Definition keeps_seq {A : Type} (seq : Z) (next : A -> Z) (m : M A) : Prop :=
  forall h, exists evs, fst (m h) = evs ++ h /\
    match snd (m h) with
    | Done a => SeqLog seq evs (Some (next a)) /\ 0 <= next a < 2 ^ 64
    | _ => exists cur, SeqLog seq evs cur
    end.

(** What a computation that ends in a returned error has done:
    [stops Q m] when [m], from any history, adds events of [Q] and returns
    an error; [safe Q m] when it adds events of [Q] and returns a value or
    an error. *)
Definition stops {A : Type} (Q : Event -> Prop) (m : M A) : Prop :=
  forall h, exists evs e, m h = (evs ++ h, Fail e) /\ Forall Q evs.

Definition safe {A : Type} (Q : Event -> Prop) (m : M A) : Prop :=
  forall h, exists evs, fst (m h) = evs ++ h /\ Forall Q evs /\
    ((exists a, snd (m h) = Done a) \/ (exists e, snd (m h) = Fail e)).

(** [succeeds m]: [m] returns a value; [sends m]: the events [m] adds
    hold a broadcast; [returns m]: [m] returns a value or an error. *)
Definition succeeds {A : Type} (m : M A) : Prop :=
  forall h, exists evs a, m h = (evs ++ h, Done a).

Definition sends {A : Type} (m : M A) : Prop :=
  forall h, exists evs, fst (m h) = evs ++ h /\ has_send evs.

Definition returns {A : Type} (m : M A) : Prop :=
  forall h, (exists a, snd (m h) = Done a) \/ (exists e, snd (m h) = Fail e).

(** [pairs m]: the events [m] adds are [Paired]. *)
Definition pairs {A : Type} (m : M A) : Prop :=
  forall h, exists evs, fst (m h) = evs ++ h /\ Paired evs.

(** ** Further readings of a history *)

(** A call that came back with an error. *)
Definition is_failed (e : Event) : bool :=
  match e with
  | EvSetLogger (Err _) | EvConfigRead (Err _) | EvNewClient _ _ (Err _)
  | EvAllChainsTrace (Err _) | EvGetNetworkChainID (Err _)
  | EvGetBaseAccountInfo _ (Err _) | EvStatus (Err _)
  | EvWaitForHeight _ (Err _) | EvCreateTransferBot _ _ _ _ _ _ (Err _)
  | EvIbcSign _ _ _ (Err _) | EvBroadcastTx _ _ (Err _)
  | EvBlock _ (Err _) => true
  | _ => false
  end.

(** The line that reports a committed block. *)
Definition is_committed (e : Event) : bool :=
  match e with
  | EvLog LInfo msg _ => String.eqb msg "block committed"
  | _ => false
  end.

(** The warning of a full mempool. *)
Definition is_full_warning (e : Event) : bool :=
  match e with
  | EvLog LWarn msg _ => String.eqb msg "mempool is full, stopping"
  | _ => false
  end.

Definition is_block (e : Event) : bool :=
  match e with EvBlock _ _ => true | _ => false end.

(** [failfast m]: [m] returns an error exactly when its latest call
    failed, no call before it has failed, and [m] does not panic. *)
Definition failfast {A : Type} (m : M A) : Prop :=
  forall h, exists evs, fst (m h) = evs ++ h /\
    match snd (m h) with
    | Done _ => count is_failed evs = 0%nat
    | Fail _ =>
      exists e rest,
        evs = e :: rest /\ is_failed e = true /\ count is_failed rest = 0%nat
    | Panic => False
    | NoFuel => count is_failed evs = 0%nat
    end.

(** [tallies p n m]: when [m] returns a value it has added [n] events
    of [p]. *)
Definition tallies {A : Type} (p : Event -> bool) (n : nat) (m : M A) : Prop :=
  forall h, exists evs, fst (m h) = evs ++ h /\
    forall a, snd (m h) = Done a -> count p evs = n.

(** [balanced p q m]: [m] adds as many events of [p] as of [q]. *)
Definition balanced {A : Type} (p q : Event -> bool) (m : M A) : Prop :=
  forall h, exists evs, fst (m h) = evs ++ h /\ count p evs = count q evs.

(** The set-up of the single-chain command goes through with the
    configuration [cfg]. *)
Record setup_ok (w : World) (cfg : Config) : Prop := {
  so_logger : forall h, exists x, SetLogger w h = Ok x;
  so_config : forall h, ConfigRead w h = Ok cfg;
  so_client : forall h rpc grpc, exists x, NewClient w h rpc grpc = Ok x;
  so_chainid : forall h, exists x, GetNetworkChainID w h = Ok x;
  so_coin : forall s, exists x, ParseCoinNormalized w s = Ok x
}.

(** A configuration without mnemonics. *)
Definition cfg_no_mnemonics : Config :=
  {| Chains := [chain "gaia"]; Mnemonics := [];
     GasLimit := 200000; FeeAmount := 1; Memo := "" |}.

Definition world_no_mnemonics : World :=
  scripted cfg_no_mnemonics [] 7 [9] [].

(** A node whose second broadcast fails in transport. *)
Definition world_broken : World :=
  {| SetLogger := SetLogger world_ok;
     ConfigRead := ConfigRead world_ok;
     NewClient := NewClient world_ok;
     AllChainsTrace := AllChainsTrace world_ok;
     GetNetworkChainID := GetNetworkChainID world_ok;
     ParseCoinNormalized := ParseCoinNormalized world_ok;
     IBCDenom := IBCDenom world_ok;
     IBCRecoverAccountFromMnemonic := IBCRecoverAccountFromMnemonic world_ok;
     GetBaseAccountInfo := GetBaseAccountInfo world_ok;
     Status := Status world_ok;
     WaitForHeight := WaitForHeight world_ok;
     CreateTransferBot := CreateTransferBot world_ok;
     IbcSign := IbcSign world_ok;
     BroadcastTx :=
       fun h _ => if Nat.eqb (count is_broadcast h) 1
                  then Err "connection reset" else Ok 0;
     Block := Block world_ok |}.

(** A node that follows the loop: each [Status] is one below the height
    the loop is about to target. *)
Definition world_steady : World := scripted cfg3 [] 7 [9; 10; 11] [].

(** ** The account of a task *)

(** A call of [IbcSign] is made with the account number [num]. *)
Definition signed_as (num : Z) (e : Event) : Prop :=
  match e with
  | EvIbcSign _ n _ _ => n = num
  | _ => True
  end.

(** An event that is neither a signature nor a broadcast. *)
Definition before_sending (e : Event) : Prop :=
  is_broadcast e = false /\ is_sign e = false.

(** [from_account seq num m]: the broadcasts [m] adds follow from the
    sequence number [seq], and its signatures are made with the account
    number [num]. *)
Definition from_account {A : Type} (seq num : Z) (m : M A) : Prop :=
  forall h, exists evs cur,
    fst (m h) = evs ++ h /\ SeqLog seq evs cur /\ Forall (signed_as num) evs.

(** ** The warning of a missing block time *)

Definition is_past_warning (e : Event) : bool :=
  match e with
  | EvLog LWarn msg _ => String.eqb msg "past block time not found"
  | _ => false
  end.

(** One when [times] holds no time for the height before [target]. *)
Definition missing_past (times : gmap Z Z) (target : Z) : nat :=
  match times !! i64 (target - 1) with
  | Some _ => 0
  | None => 1
  end.

(** [atmost p n m]: [m] adds at most [n] events of [p]. *)
Definition atmost {A : Type} (p : Event -> bool) (n : nat) (m : M A) : Prop :=
  forall h, exists evs, fst (m h) = evs ++ h /\ (count p evs <= n)%nat.

(** [delivers n k m]: when [m] returns a value, it has made at most [n]
    broadcasts that count as sent, exactly [n] when the mempool was never
    full, and at most [k] broadcasts were rejected for a full mempool. *)
Definition delivers {A : Type} (n k : nat) (m : M A) : Prop :=
  forall h, exists evs, fst (m h) = evs ++ h /\
    forall a, snd (m h) = Done a ->
      (count is_counted evs <= n)%nat /\
      (count is_saturation evs <= k)%nat /\
      (count is_saturation evs = 0%nat -> count is_counted evs = n).

(** * Properties *)

Arguments u64 : simpl never.
Arguments i64 : simpl never.
Arguments time_sub : simpl never.

(** ** Machine integers *)

Lemma u64_range z : 0 <= u64 z < 2 ^ 64.
Proof. unfold u64. apply Z.mod_pos_bound. lia. Qed.

Lemma u64_small z : 0 <= z < 2 ^ 64 -> u64 z = z.
Proof. intros H. unfold u64. apply Z.mod_small. exact H. Qed.

Lemma i64_small z : min_i64 <= z <= max_i64 -> i64 z = z.
Proof.
  unfold i64, min_i64, max_i64. intros H.
  rewrite Z.mod_small; lia.
Qed.

(** The roll-back undoes the increment, also at the top of the range. *)
Lemma u64_rollback s : 0 <= s < 2 ^ 64 -> u64 (u64 (s + 1) - 1) = s.
Proof.
  intros H. unfold u64.
  destruct (Z.eq_dec s (2 ^ 64 - 1)) as [-> | Hne].
  - reflexivity.
  - rewrite (Z.mod_small (s + 1)) by lia.
    rewrite Z.mod_small; lia.
Qed.

(** ** The monad *)

Lemma bind_ret {A B : Type} (a : A) (k : A -> M B) h :
  bind (ret a) k h = k a h.
Proof. reflexivity. Qed.

Lemma bind_log {B : Type} lvl msg fields (k : unit -> M B) h :
  bind (log lvl msg fields) k h = k tt (EvLog lvl msg fields :: h).
Proof. reflexivity. Qed.

Lemma bind_call {A B : Type} (ask : History -> reply A) ev wrap
    (k : A -> M B) h :
  bind (call ask ev wrap) k h =
  match ask h with
  | Ok a => k a (ev (Ok a) :: h)
  | Err e => (ev (Err e) :: h, Fail (wrap e))
  end.
Proof. unfold bind, call. destruct (ask h); reflexivity. Qed.

Lemma bind_assoc {A B C : Type} (m : M A) (k : A -> M B) (k' : B -> M C) h :
  bind (bind m k) k' h = bind m (fun a => bind (k a) k') h.
Proof.
  unfold bind. destruct (m h) as [h1 [a | e | | ]]; reflexivity.
Qed.

(** ** What a computation adds to the history *)

Section Emits.

Context {Q : Event -> Prop}.

Lemma emits_ret {A : Type} (a : A) : emits Q (ret a).
Proof. intros h. exists []. split; [reflexivity | constructor]. Qed.

Lemma emits_fail {A : Type} e : emits Q (@fail A e).
Proof. intros h. exists []. split; [reflexivity | constructor]. Qed.

Lemma emits_panic {A : Type} : emits Q (@panic A).
Proof. intros h. exists []. split; [reflexivity | constructor]. Qed.

Lemma emits_nofuel {A : Type} : emits Q (@nofuel A).
Proof. intros h. exists []. split; [reflexivity | constructor]. Qed.

Lemma emits_log lvl msg fields :
  Q (EvLog lvl msg fields) -> emits Q (log lvl msg fields).
Proof.
  intros HQ h. exists [EvLog lvl msg fields].
  split; [reflexivity | repeat constructor; exact HQ].
Qed.

Lemma emits_call {A : Type} (ask : History -> reply A) ev wrap :
  (forall r, Q (ev r)) -> emits Q (call ask ev wrap).
Proof.
  intros HQ h. exists [ev (ask h)].
  split; [reflexivity | repeat constructor; apply HQ].
Qed.

Lemma emits_bind {A B : Type} (m : M A) (k : A -> M B) :
  emits Q m -> (forall a, emits Q (k a)) -> emits Q (bind m k).
Proof.
  intros Hm Hk h. destruct (Hm h) as (evs & Heq & HQ).
  unfold bind. destruct (m h) as [h1 o]. simpl in Heq. subst h1.
  destruct o as [a | e | | ]; try (exists evs; split; [reflexivity | exact HQ]).
  destruct (Hk a (evs ++ h)) as (evs' & Heq' & HQ').
  exists (evs' ++ evs). split.
  - rewrite Heq'. apply app_assoc.
  - apply Forall_app. split; assumption.
Qed.

Lemma emits_lift {A : Type} (r : reply A) wrap : emits Q (lift r wrap).
Proof. destruct r; [apply emits_ret | apply emits_fail]. Qed.

Lemma emits_arg args i : emits Q (arg args i).
Proof.
  unfold arg. destruct (nth_error args i); [apply emits_ret | apply emits_panic].
Qed.

End Emits.

Lemma emits_weaken {A : Type} (P Q : Event -> Prop) (m : M A) :
  (forall e, P e -> Q e) -> emits P m -> emits Q m.
Proof.
  intros HPQ Hm h. destruct (Hm h) as (evs & Heq & HP).
  exists evs. split; [exact Heq |].
  eapply Forall_impl; [exact HP | exact HPQ].
Qed.

(** ** Counting events *)

Lemma count_nil p : count p [] = 0%nat.
Proof. reflexivity. Qed.

Lemma count_cons p e h :
  count p (e :: h) = ((if p e then 1 else 0) + count p h)%nat.
Proof. unfold count. simpl. destruct (p e); reflexivity. Qed.

Lemma count_app p h1 h2 : count p (h1 ++ h2) = (count p h1 + count p h2)%nat.
Proof. unfold count. rewrite List.filter_app, length_app. reflexivity. Qed.

Lemma count_zero_Forall p h :
  Forall (fun e => p e = false) h -> count p h = 0%nat.
Proof.
  induction 1 as [| e h He _ IH]; [reflexivity |].
  rewrite count_cons, He, IH. reflexivity.
Qed.

Section LoopEvents.

Variable w : World.
Variable t : Task.

Lemma signLoop_emits fuel : forall msgs sent seq,
  emits (sign_event t msgs) (signLoop w t fuel msgs sent seq).
Proof.
  induction fuel as [| fuel IH]; intros msgs sent seq; simpl;
    destruct (sent <? txNum t); try apply emits_ret; try apply emits_nofuel.
  apply emits_bind; [apply emits_call; intros; constructor |]. intros tx.
  apply emits_bind; [apply emits_call; intros; constructor |]. intros code.
  destruct (negb (code =? 0)); [destruct (code =? mempool_full) |];
    try apply IH.
  apply emits_bind; [apply emits_log; constructor | intros; apply emits_ret].
Qed.

(** The inner loop leaves without [break] only when its guard fails. *)
Lemma signLoop_exit fuel : forall msgs sent seq h sent' seq',
  snd (signLoop w t fuel msgs sent seq h) = Done (sent', seq', false) ->
  (sent' <? txNum t) = false.
Proof.
  induction fuel as [| fuel IH]; intros msgs sent seq h sent' seq'; simpl;
    destruct (sent <? txNum t) eqn:Hlt;
    try (simpl; intros [= <- <-]; exact Hlt); try discriminate.
  rewrite bind_call. destruct (IbcSign w h seq (accNum t) (privKey t) msgs);
    [| discriminate].
  rewrite bind_call. destruct (BroadcastTx w _ a); [| discriminate].
  destruct (negb (a0 =? 0)); [destruct (a0 =? mempool_full) |];
    try apply IH.
  rewrite bind_log. discriminate.
Qed.

Lemma fillLoop_guard_false fuel sent seq h :
  (sent <? txNum t) = false ->
  fillLoop w t fuel sent seq h = (h, Done (sent, seq)).
Proof. intros Hlt. destruct fuel; simpl; rewrite Hlt; reflexivity. Qed.

Lemma fillLoop_emits fuel : forall sent seq,
  emits (body_event t) (fillLoop w t fuel sent seq).
Proof.
  induction fuel as [| fuel IH]; intros sent seq; simpl;
    destruct (sent <? txNum t); try apply emits_ret; try apply emits_nofuel.
  apply emits_bind; [apply emits_call; intros; constructor |]. intros msgs.
  apply emits_bind.
  - eapply emits_weaken; [| apply signLoop_emits].
    intros e He. eapply be_sign. exact He.
  - intros [[sent' seq'] [|]]; [apply emits_ret | apply IH].
Qed.

Lemma recordBlock_emits target sent times :
  emits record_event (recordBlock w t target sent times).
Proof.
  unfold recordBlock.
  apply emits_bind; [apply emits_call; intros; constructor |]. intros _.
  apply emits_bind; [apply emits_call; intros; constructor |].
  intros [btime ntxs].
  apply emits_bind.
  - destruct (times !! i64 (target - 1)); [apply emits_ret |].
    apply emits_bind; [apply emits_log; constructor | intros; apply emits_ret].
  - intros [d times1].
    apply emits_bind; [apply emits_log; constructor | intros; apply emits_ret].
Qed.

Lemma driftCheck_emits target : emits drift_event (driftCheck w target).
Proof.
  unfold driftCheck.
  apply emits_bind; [apply emits_call; intros; constructor |]. intros got.
  destruct (negb (got =? i64 (target - 1))); [| apply emits_ret].
  apply emits_bind; [apply emits_log; constructor | intros; apply emits_ret].
Qed.

Lemma iteration_split s :
  iteration w t s =
  bind (driftCheck w (targetHeight s)) (iterationBody w t s).
Proof. reflexivity. Qed.

Lemma iterationBody_emits s target :
  emits (body_event t) (iterationBody w t s target).
Proof.
  unfold iterationBody.
  apply emits_bind; [apply fillLoop_emits |]. intros [sent seq].
  apply emits_bind.
  - destruct (debugTook t); [apply emits_log; constructor | apply emits_ret].
  - intros _. apply emits_bind.
    + eapply emits_weaken; [| apply recordBlock_emits].
      intros e He. apply be_record. exact He.
    + intros [target' times']. apply emits_ret.
Qed.

Lemma iteration_emits s : emits (loop_event t) (iteration w t s).
Proof.
  rewrite iteration_split. apply emits_bind.
  - eapply emits_weaken; [| apply driftCheck_emits].
    intros e He. apply le_drift. exact He.
  - intros target. eapply emits_weaken; [| apply iterationBody_emits].
    intros e He. apply le_body. exact He.
Qed.

Lemma blockLoop_emits fuel : forall i s,
  emits (loop_event t) (blockLoop w t fuel i s).
Proof.
  induction fuel as [| fuel IH]; intros i s; simpl;
    destruct (i <? blocks t); try apply emits_ret; try apply emits_nofuel.
  apply emits_bind; [apply iteration_emits | intros s'; apply IH].
Qed.

Lemma sendLoop_emits s : emits (loop_event t) (sendLoop w t s).
Proof. apply blockLoop_emits. Qed.

End LoopEvents.

(** ** Filling one block *)

Section FillBlock.

Variable w : World.
Variable t : Task.

(** What the inner loop has done when it ends: [sent] has grown by the
    number of counted broadcasts; after a [break] the last broadcast is
    the rejected one and the count is short of [txNum]; without one the
    count is [txNum].  The fuel is never used up. *)
Lemma signLoop_count fuel : forall msgs sent seq h,
  min_i64 <= sent <= txNum t -> txNum t <= max_i64 ->
  (Z.to_nat (txNum t - sent) <= fuel)%nat ->
  exists evs, fst (signLoop w t fuel msgs sent seq h) = evs ++ h /\
    match snd (signLoop w t fuel msgs sent seq h) with
    | Done (sent', seq', brk) =>
      sent' = sent + Z.of_nat (count is_counted evs) /\
      if brk then
        sent' < txNum t /\
        exists s tx rest,
          evs = EvLog LWarn "mempool is full, stopping" []
                :: EvBroadcastTx s tx (Ok mempool_full) :: rest /\
          count is_saturation rest = 0%nat
      else sent' = txNum t /\ count is_saturation evs = 0%nat
    | Fail _ => True
    | Panic => False
    | NoFuel => False
    end.
Proof.
  assert (Hstop : forall (sent : Z) (h : History),
    min_i64 <= sent <= txNum t -> (sent <? txNum t) = false ->
    exists evs, h = evs ++ h /\
      (sent = sent + Z.of_nat (count is_counted evs) /\
       (sent = txNum t /\ count is_saturation evs = 0%nat))).
  { intros sent h Hs Hlt. apply Z.ltb_ge in Hlt.
    exists []. rewrite !count_nil. repeat split; lia. }
  induction fuel as [| fuel IH]; intros msgs sent seq h Hs Hmax Hfuel;
    simpl; destruct (sent <? txNum t) eqn:Hlt;
    try (apply (Hstop sent h Hs Hlt));
    apply Z.ltb_lt in Hlt; [lia |].
  rewrite bind_call.
  destruct (IbcSign w h seq (accNum t) (privKey t) msgs) as [tx | e];
    [| eexists [_]; simpl; split; [reflexivity | exact I]].
  rewrite bind_call.
  destruct (BroadcastTx w _ tx) as [code | e];
    [| eexists [_; _]; simpl; split; [reflexivity | exact I]].
  set (sgn := EvIbcSign seq (accNum t) msgs (Ok tx)).
  set (bc := EvBroadcastTx seq tx (Ok code)).
  assert (Hcont :
    (code =? mempool_full) = false ->
    exists evs,
      fst (signLoop w t fuel msgs (i64 (sent + 1)) (u64 (seq + 1))
             (bc :: sgn :: h)) = evs ++ h /\
      match snd (signLoop w t fuel msgs (i64 (sent + 1)) (u64 (seq + 1))
                   (bc :: sgn :: h)) with
      | Done (sent', seq', brk) =>
        sent' = sent + Z.of_nat (count is_counted evs) /\
        (if brk then
           sent' < txNum t /\
           exists s tx rest,
             evs = EvLog LWarn "mempool is full, stopping" []
                   :: EvBroadcastTx s tx (Ok mempool_full) :: rest /\
             count is_saturation rest = 0%nat
         else sent' = txNum t /\ count is_saturation evs = 0%nat)
      | Fail _ => True
      | Panic => False
      | NoFuel => False
      end).
  { intros Hcode.
    rewrite (i64_small (sent + 1)) by lia.
    destruct (IH msgs (sent + 1) (u64 (seq + 1)) (bc :: sgn :: h))
      as (evs & Heq & Hres); [lia | lia | lia |].
    exists (evs ++ [bc; sgn]). split.
    { rewrite Heq, <- app_assoc. reflexivity. }
    destruct (snd (signLoop w t fuel msgs (sent + 1) (u64 (seq + 1))
                     (bc :: sgn :: h))) as [[[sent' seq'] brk] | e | |];
      try exact Hres.
    destruct Hres as [Hsent Hbrk].
    assert (Hc : count is_counted [bc; sgn] = 1%nat).
    { unfold bc, sgn. rewrite !count_cons. simpl. rewrite Hcode. reflexivity. }
    assert (Hz : count is_saturation [bc; sgn] = 0%nat).
    { unfold bc, sgn. rewrite !count_cons. simpl. rewrite Hcode. reflexivity. }
    split; [rewrite count_app, Hc; lia |].
    destruct brk.
    - destruct Hbrk as (Hlt' & s & tx' & rest & -> & Hrest).
      split; [exact Hlt' |].
      exists s, tx', (rest ++ [bc; sgn]). split; [reflexivity |].
      rewrite count_app, Hrest, Hz. reflexivity.
    - destruct Hbrk as [Heq' Hsat]. split; [exact Heq' |].
      rewrite count_app, Hsat, Hz. reflexivity. }
  destruct (code =? 0) eqn:H0; simpl.
  - apply Hcont. apply Z.eqb_eq in H0. subst code. reflexivity.
  - destruct (code =? mempool_full) eqn:Hfull; [| apply Hcont; reflexivity].
    rewrite bind_log. simpl.
    apply Z.eqb_eq in Hfull. subst code. clear Hcont. subst sgn bc.
    eexists [_; _; _]. split; [reflexivity |].
    split; [rewrite !count_cons, count_nil; simpl; lia |].
    split; [lia |].
    eexists seq, tx, [_]. split; [reflexivity |]. reflexivity.
Qed.

Lemma fillLoop_count fuel : forall sent seq h,
  min_i64 <= sent <= txNum t -> txNum t <= max_i64 ->
  (sent < txNum t -> (1 <= fuel)%nat) ->
  exists evs, fst (fillLoop w t fuel sent seq h) = evs ++ h /\
    match snd (fillLoop w t fuel sent seq h) with
    | Done (sent', seq') =>
      sent' = sent + Z.of_nat (count is_counted evs) /\
      sent' <= txNum t /\
      (sent' = txNum t <-> count is_saturation evs = 0%nat) /\
      (count is_saturation evs <> 0%nat ->
       exists s tx rest,
         evs = EvLog LWarn "mempool is full, stopping" []
               :: EvBroadcastTx s tx (Ok mempool_full) :: rest /\
         count is_saturation rest = 0%nat)
    | Fail _ => True
    | Panic => False
    | NoFuel => False
    end.
Proof.
  intros sent seq h Hs Hmax Hfuel.
  destruct (sent <? txNum t) eqn:Hlt.
  - apply Z.ltb_lt in Hlt. destruct fuel as [| fuel]; [specialize (Hfuel Hlt); lia |].
    simpl. apply Z.ltb_lt in Hlt. rewrite Hlt. apply Z.ltb_lt in Hlt.
    rewrite bind_call.
    destruct (CreateTransferBot w h (srcPort t) (srcChannel t) (coin t)
                (accAddr t) (receiver t) (msgNum t)) as [msgs | e];
      [| eexists [_]; simpl; split; [reflexivity | exact I]].
    set (cr := EvCreateTransferBot _ _ _ _ _ _ _).
    destruct (signLoop_count (Z.to_nat (txNum t - sent)) msgs sent seq
                (cr :: h)) as (evs & Heq & Hres); [lia | lia | lia |].
    unfold bind.
    destruct (signLoop w t (Z.to_nat (txNum t - sent)) msgs sent seq (cr :: h))
      as [h1 o]. simpl in Heq, Hres. subst h1.
    assert (Hcr : count is_counted [cr] = 0%nat) by reflexivity.
    assert (Hcs : count is_saturation [cr] = 0%nat) by reflexivity.
    destruct o as [[[sent' seq'] brk] | e | |];
      try (exists (evs ++ [cr]); simpl; rewrite <- app_assoc;
           split; [reflexivity | exact Hres]).
    destruct Hres as [Hsent Hbrk]. destruct brk.
    + destruct Hbrk as (Hlt' & s & tx & rest & -> & Hrest).
      eexists (_ :: _ :: rest ++ [cr]). simpl. rewrite <- app_assoc.
      split; [reflexivity |].
      assert (Hsat : count is_saturation
                (EvLog LWarn "mempool is full, stopping" []
                 :: EvBroadcastTx s tx (Ok mempool_full) :: rest ++ [cr])
              = 1%nat).
      { rewrite !count_cons, count_app, Hrest, Hcs. reflexivity. }
      rewrite Hsat. split; [| split; [lia | split; [split; [lia | discriminate] |]]].
      * rewrite Hsent, !count_cons, count_app, Hcr. simpl. lia.
      * intros _. exists s, tx, (rest ++ [cr]). split; [reflexivity |].
        rewrite count_app, Hrest, Hcs. reflexivity.
    + destruct Hbrk as [-> Hsat].
      rewrite fillLoop_guard_false by (apply Z.ltb_ge; lia).
      exists (evs ++ [cr]). simpl. rewrite <- app_assoc.
      split; [reflexivity |].
      rewrite !count_app, Hcr, Hcs, Hsat.
      split; [lia | split; [lia | split; [split; [reflexivity | lia] |]]].
      intros Hne. exfalso. apply Hne. reflexivity.
  - rewrite fillLoop_guard_false by exact Hlt. apply Z.ltb_ge in Hlt.
    exists []. simpl. split; [reflexivity |]. rewrite !count_nil.
    split; [simpl; lia | split; [lia | split; [split; [reflexivity | lia] |]]].
    intros Hne. exfalso. apply Hne. reflexivity.
Qed.

End FillBlock.



(** The scenario of the specification: the second of five transactions
    is rejected, one is recorded as sent and the sequence is where the
    rejected broadcast was signed. *)
Example fillBlock_saturated_second_of_five :
  snd (fillBlock world_saturated (task0 1 5) 7 []) = Done (1, 8).
Proof. vm_compute. reflexivity. Qed.





(** ** Sequence numbers *)

Lemma SeqLog_quiet start evs :
  Forall (fun e => is_broadcast e = false) evs ->
  SeqLog start evs (Some start).
Proof.
  induction 1 as [| e evs He _ IH]; [apply sl_nil | apply sl_other; assumption].
Qed.

Lemma SeqLog_app start mid evs1 evs2 cur :
  SeqLog start evs1 (Some mid) -> SeqLog mid evs2 cur ->
  SeqLog start (evs2 ++ evs1) cur.
Proof.
  intros H1 H2. induction H2; simpl.
  - exact H1.
  - apply sl_other; assumption.
  - apply sl_ok. assumption.
  - apply sl_err. assumption.
Qed.

Lemma sign_event_quiet t msgs e :
  sign_event t msgs e -> is_broadcast e = false \/ exists s tx r, e = EvBroadcastTx s tx r.
Proof. intros []; [left; reflexivity | right; eauto | left; reflexivity]. Qed.

Lemma record_event_quiet e : record_event e -> is_broadcast e = false.
Proof. intros []; reflexivity. Qed.

Lemma drift_event_quiet e : drift_event e -> is_broadcast e = false.
Proof. intros []; reflexivity. Qed.

Lemma keeps_seq_bind {A B : Type} seq (next : A -> Z) (next' : B -> Z)
    (m : M A) (k : A -> M B) :
  keeps_seq seq next m ->
  (forall a, 0 <= next a < 2 ^ 64 -> keeps_seq (next a) next' (k a)) ->
  keeps_seq seq next' (bind m k).
Proof.
  intros Hm Hk h. destruct (Hm h) as (evs & Heq & Hres).
  unfold bind. destruct (m h) as [h1 o]. simpl in Heq, Hres. subst h1.
  destruct o as [a | e | |]; try (exists evs; split; [reflexivity | exact Hres]).
  destruct Hres as [Hlog Hrange].
  destruct (Hk a Hrange (evs ++ h)) as (evs' & Heq' & Hres').
  exists (evs' ++ evs). split; [rewrite Heq'; apply app_assoc |].
  destruct (snd (k a (evs ++ h))) as [b | e | |].
  - destruct Hres' as [Hlog' Hrange']. split; [| exact Hrange'].
    eapply SeqLog_app; eassumption.
  - destruct Hres' as [cur Hcur]. exists cur. eapply SeqLog_app; eassumption.
  - destruct Hres' as [cur Hcur]. exists cur. eapply SeqLog_app; eassumption.
  - destruct Hres' as [cur Hcur]. exists cur. eapply SeqLog_app; eassumption.
Qed.

(** A part that broadcasts nothing hands the number on unchanged. *)
Lemma keeps_seq_quiet {A : Type} seq (next : A -> Z) (m : M A) :
  0 <= seq < 2 ^ 64 ->
  emits (fun e => is_broadcast e = false) m ->
  (forall a, next a = seq) ->
  keeps_seq seq next m.
Proof.
  intros Hrange Hm Hnext h. destruct (Hm h) as (evs & Heq & Hq).
  exists evs. split; [exact Heq |].
  pose proof (SeqLog_quiet seq evs Hq) as Hlog.
  destruct (snd (m h)) as [a | e | |]; try (eexists; exact Hlog).
  rewrite Hnext. split; assumption.
Qed.

Lemma keeps_seq_ret {A : Type} (next : A -> Z) (a : A) :
  0 <= next a < 2 ^ 64 -> keeps_seq (next a) next (ret a).
Proof.
  intros Hrange h. exists []. split; [reflexivity |]. simpl.
  split; [apply sl_nil | exact Hrange].
Qed.

Section SequenceNumbers.

Variable w : World.
Variable t : Task.

Lemma signLoop_keeps_seq fuel : forall msgs sent seq,
  0 <= seq < 2 ^ 64 ->
  keeps_seq seq (fun r : Z * Z * bool => snd (fst r))
    (signLoop w t fuel msgs sent seq).
Proof.
  induction fuel as [| fuel IH]; intros msgs sent seq Hrange h; simpl;
    destruct (sent <? txNum t);
    try (exists []; split; [reflexivity |]; simpl;
         first [split; [apply sl_nil | exact Hrange]
               | eexists; apply sl_nil]).
  rewrite bind_call.
  destruct (IbcSign w h seq (accNum t) (privKey t) msgs) as [tx | e].
  2:{ eexists [_]. split; [reflexivity |]. simpl. eexists.
      apply sl_other; [reflexivity | apply sl_nil]. }
  rewrite bind_call.
  destruct (BroadcastTx w _ tx) as [code | e].
  2:{ eexists [_; _]. split; [reflexivity |]. simpl. eexists.
      apply sl_err. apply sl_other; [reflexivity | apply sl_nil]. }
  set (sgn := EvIbcSign seq (accNum t) msgs (Ok tx)).
  set (bc := EvBroadcastTx seq tx (Ok code)).
  assert (Hstep : SeqLog seq [bc; sgn] (Some (seq_after seq code))).
  { apply sl_ok. apply sl_other; [reflexivity | apply sl_nil]. }
  assert (Hcont : (code =? mempool_full) = false ->
    exists evs,
      fst (signLoop w t fuel msgs (i64 (sent + 1)) (u64 (seq + 1))
             (bc :: sgn :: h)) = evs ++ h /\
      match snd (signLoop w t fuel msgs (i64 (sent + 1)) (u64 (seq + 1))
                   (bc :: sgn :: h)) with
      | Done a => SeqLog seq evs (Some (snd (fst a))) /\
                  0 <= snd (fst a) < 2 ^ 64
      | _ => exists cur, SeqLog seq evs cur
      end).
  { intros Hcode. unfold seq_after in Hstep. rewrite Hcode in Hstep.
    destruct (IH msgs (i64 (sent + 1)) (u64 (seq + 1)) (u64_range _)
                (bc :: sgn :: h)) as (evs & Heq & Hres).
    exists (evs ++ [bc; sgn]). split; [rewrite Heq, <- app_assoc; reflexivity |].
    destruct (snd (signLoop w t fuel msgs (i64 (sent + 1)) (u64 (seq + 1))
                     (bc :: sgn :: h))) as [a | e | |].
    - destruct Hres as [Hlog Hr]. split; [| exact Hr].
      eapply SeqLog_app; eassumption.
    - destruct Hres as [cur Hcur]. exists cur. eapply SeqLog_app; eassumption.
    - destruct Hres as [cur Hcur]. exists cur. eapply SeqLog_app; eassumption.
    - destruct Hres as [cur Hcur]. exists cur. eapply SeqLog_app; eassumption. }
  destruct (code =? 0) eqn:H0; simpl.
  - apply Hcont. apply Z.eqb_eq in H0. subst code. reflexivity.
  - destruct (code =? mempool_full) eqn:Hfull; [| apply Hcont; reflexivity].
    rewrite bind_log. simpl.
    eexists [_; _; _]. split; [reflexivity |]. simpl.
    rewrite u64_rollback by exact Hrange. split; [| exact Hrange].
    apply sl_other; [reflexivity |].
    unfold seq_after in Hstep. rewrite Hfull in Hstep. exact Hstep.
Qed.

Lemma fillLoop_keeps_seq fuel : forall sent seq,
  0 <= seq < 2 ^ 64 ->
  keeps_seq seq (fun r : Z * Z => snd r) (fillLoop w t fuel sent seq).
Proof.
  induction fuel as [| fuel IH]; intros sent seq Hrange; simpl;
    destruct (sent <? txNum t);
    try (intros h; exists []; split; [reflexivity |]; simpl;
         first [split; [apply sl_nil | exact Hrange]
               | eexists; apply sl_nil]).
  eapply (keeps_seq_bind seq (fun _ => seq)).
  - apply keeps_seq_quiet; [exact Hrange | | reflexivity].
    apply emits_call. reflexivity.
  - intros msgs _.
    eapply keeps_seq_bind; [apply signLoop_keeps_seq; exact Hrange |].
    intros [[sent' seq'] [|]] Hr'; simpl in Hr'.
    + apply (keeps_seq_ret (fun r : Z * Z => snd r) (sent', seq')). exact Hr'.
    + apply IH. exact Hr'.
Qed.

Lemma iteration_keeps_seq s :
  0 <= accSeq s < 2 ^ 64 ->
  keeps_seq (accSeq s) accSeq (iteration w t s).
Proof.
  intros Hrange. rewrite iteration_split.
  eapply (keeps_seq_bind _ (fun _ => accSeq s)).
  - apply keeps_seq_quiet; [exact Hrange | | reflexivity].
    eapply emits_weaken; [| apply driftCheck_emits]. apply drift_event_quiet.
  - intros target _. unfold iterationBody.
    eapply keeps_seq_bind; [apply fillLoop_keeps_seq; exact Hrange |].
    intros [sent seq] Hr. simpl in Hr. simpl snd.
    eapply (keeps_seq_bind _ (fun _ => seq)).
    + apply keeps_seq_quiet; [exact Hr | | reflexivity].
      destruct (debugTook t); [apply emits_log; reflexivity | apply emits_ret].
    + intros _ _. eapply (keeps_seq_bind _ (fun _ => seq)).
      * apply keeps_seq_quiet; [exact Hr | | reflexivity].
        eapply emits_weaken; [| apply recordBlock_emits].
        apply record_event_quiet.
      * intros [target' times'] _.
        apply (keeps_seq_ret accSeq
                 {| targetHeight := target'; accSeq := seq;
                    blockTimes := times' |}).
        exact Hr.
Qed.

Lemma blockLoop_keeps_seq fuel : forall i s,
  0 <= accSeq s < 2 ^ 64 ->
  keeps_seq (accSeq s) accSeq (blockLoop w t fuel i s).
Proof.
  induction fuel as [| fuel IH]; intros i s Hrange; simpl;
    destruct (i <? blocks t);
    try (intros h; exists []; split; [reflexivity |]; simpl;
         first [split; [apply sl_nil | exact Hrange]
               | eexists; apply sl_nil]).
  eapply keeps_seq_bind; [apply iteration_keeps_seq; exact Hrange |].
  intros s' Hr. apply IH. exact Hr.
Qed.

End SequenceNumbers.

Lemma count_rev p h : count p (rev h) = count p h.
Proof.
  induction h as [| e h IH]; [reflexivity |].
  simpl. rewrite count_app, count_cons, IH, count_cons, count_nil. lia.
Qed.

Lemma count_zero_head p e h : count p (e :: h) = 0%nat -> p e = false.
Proof. rewrite count_cons. destruct (p e); [discriminate | reflexivity]. Qed.

Lemma count_zero_tail p e h : count p (e :: h) = 0%nat -> count p h = 0%nat.
Proof. rewrite count_cons. destruct (p e); [discriminate | intros H; exact H]. Qed.

(** The latest broadcast of a history fixes the current number. *)
Lemma SeqLog_latest start : forall mid s1 tx1 r1 older s,
  count is_broadcast mid = 0%nat ->
  SeqLog start (mid ++ EvBroadcastTx s1 tx1 r1 :: older) (Some s) ->
  exists code, r1 = Ok code /\ s = seq_after s1 code.
Proof.
  induction mid as [| m mid IH]; intros s1 tx1 r1 older s Hmid Hlog; simpl in Hlog.
  - inversion Hlog; subst; try discriminate. eexists. split; reflexivity.
  - pose proof (count_zero_head _ _ _ Hmid) as Hm.
    apply count_zero_tail in Hmid.
    inversion Hlog; subst; try discriminate.
    eapply IH; eassumption.
Qed.

(** Two broadcasts with none between them. *)
Lemma SeqLog_adjacent start evs cur :
  SeqLog start evs cur ->
  forall newer s2 tx2 r2 mid s1 tx1 r1 older,
    evs = newer ++ EvBroadcastTx s2 tx2 r2 :: mid
          ++ EvBroadcastTx s1 tx1 r1 :: older ->
    count is_broadcast mid = 0%nat ->
    exists code, r1 = Ok code /\ s2 = seq_after s1 code.
Proof.
  induction 1 as [| e h cur He Hlog IH | s tx code h Hlog IH | s tx e h Hlog IH];
    intros newer s2 tx2 r2 mid s1 tx1 r1 older Heq Hmid.
  - destruct newer; discriminate.
  - destruct newer as [| n newer]; simpl in Heq.
    + injection Heq as -> _. discriminate.
    + injection Heq as _ ->. eapply IH; [reflexivity | exact Hmid].
  - destruct newer as [| n newer]; simpl in Heq.
    + injection Heq as -> _ _ ->.
      eapply SeqLog_latest; eassumption.
    + injection Heq as _ ->. eapply IH; [reflexivity | exact Hmid].
  - destruct newer as [| n newer]; simpl in Heq.
    + injection Heq as -> _ _ ->.
      eapply SeqLog_latest; eassumption.
    + injection Heq as _ ->. eapply IH; [reflexivity | exact Hmid].
Qed.

(** Every broadcast of a history that starts in range was signed at a
    number in range. *)
Lemma SeqLog_range start evs cur :
  0 <= start < 2 ^ 64 -> SeqLog start evs cur ->
  (forall c, cur = Some c -> 0 <= c < 2 ^ 64) /\
  (forall s tx r, In (EvBroadcastTx s tx r) evs -> 0 <= s < 2 ^ 64).
Proof.
  intros Hstart. induction 1 as [| e h cur He Hlog IH | s tx code h Hlog IH
                                  | s tx e h Hlog IH].
  - split; [intros c [= <-]; exact Hstart | intros s tx r []].
  - destruct IH as [IHc IHs]. split; [exact IHc |].
    intros s tx r [Heq | Hin]; [subst e; discriminate | eapply IHs; exact Hin].
  - destruct IH as [IHc IHs]. specialize (IHc s eq_refl). split.
    + intros c [= <-]. unfold seq_after.
      destruct (code =? mempool_full); [exact IHc | apply u64_range].
    + intros s' tx' r' [[= <- _ _] | Hin]; [exact IHc | eapply IHs; exact Hin].
  - destruct IH as [IHc IHs]. specialize (IHc s eq_refl). split.
    + intros c [=].
    + intros s' tx' r' [[= <- _ _] | Hin]; [exact IHc | eapply IHs; exact Hin].
Qed.

Lemma rev_two_marks {A : Type} (a : list A) x m y b :
  rev (a ++ x :: m ++ y :: b) = rev b ++ y :: rev m ++ x :: rev a.
Proof.
  rewrite rev_app_distr. simpl. rewrite rev_app_distr. simpl.
  repeat (rewrite <- app_assoc; simpl). reflexivity.
Qed.

(** C1. In the events of one send loop, take two broadcasts with no
    broadcast between them.  The earlier one was answered with a response
    code; if that code is the full-mempool code the later one is signed at
    the same sequence number, and otherwise, whatever the code, at the
    next one: [s1 + 1] in [uint64] arithmetic, which is [s1 + 1] below
    the top of the range. *)
Theorem sequence_numbers_chain (w : World) (t : Task) (s : LoopState)
    (h evs before : list Event) (s1 : Z) (tx1 : TxBytes) (r1 : reply Z)
    (mid : list Event) (s2 : Z) (tx2 : TxBytes) (r2 : reply Z)
    (after : list Event) :
  0 <= accSeq s < 2 ^ 64 ->
  fst (sendLoop w t s h) = evs ++ h ->
  chrono evs = before ++ EvBroadcastTx s1 tx1 r1 :: mid
               ++ EvBroadcastTx s2 tx2 r2 :: after ->
  count is_broadcast mid = 0%nat ->
  exists code, r1 = Ok code /\
    (code = mempool_full -> s2 = s1) /\
    (code <> mempool_full -> s2 = u64 (s1 + 1)) /\
    (code <> mempool_full -> s1 < max_u64 -> s2 = s1 + 1).
Proof.
  intros Hrange Hevs Hchrono Hmid.
  destruct (blockLoop_keeps_seq w t (Z.to_nat (blocks t)) 0 s Hrange h)
    as (evs0 & Heq & Hres).
  fold (sendLoop w t s) in Heq, Hres.
  rewrite Hevs in Heq. apply app_inv_tail in Heq. subst evs0.
  assert (Hlog : exists cur, SeqLog (accSeq s) evs cur).
  { destruct (snd (sendLoop w t s h)); try exact Hres.
    destruct Hres as [Hlog _]. eexists. exact Hlog. }
  destruct Hlog as [cur Hlog].
  assert (Hsplit : evs = rev after ++ EvBroadcastTx s2 tx2 r2 :: rev mid
                         ++ EvBroadcastTx s1 tx1 r1 :: rev before).
  { rewrite <- (rev_involutive evs). unfold chrono in Hchrono.
    rewrite Hchrono. apply rev_two_marks. }
  destruct (SeqLog_adjacent _ _ _ Hlog _ _ _ _ _ _ _ _ _ Hsplit)
    as (code & -> & Hs2); [rewrite count_rev; exact Hmid |].
  destruct (SeqLog_range _ _ _ Hrange Hlog) as [_ Hin].
  assert (Hs1 : 0 <= s1 < 2 ^ 64).
  { apply (Hin s1 tx1 (Ok code)). rewrite Hsplit.
    apply in_or_app. right. right. apply in_or_app. right. left. reflexivity. }
  exists code. split; [reflexivity |]. unfold seq_after in Hs2.
  destruct (code =? mempool_full) eqn:Hfull.
  - apply Z.eqb_eq in Hfull. repeat split; intros; congruence.
  - apply Z.eqb_neq in Hfull. repeat split; intros; try congruence.
    rewrite Hs2. apply u64_small. unfold max_u64 in *. lia.
Qed.

Lemma sequence_numbers_chain_witness :
  exists code, Ok 20 = Ok code /\
    (code = mempool_full -> 9 = 9) /\
    (code <> mempool_full -> 9 = u64 (9 + 1)) /\
    (code <> mempool_full -> 9 < max_u64 -> 9 = 9 + 1).
Proof.
  apply (sequence_numbers_chain world_drift (task0 2 3) (state0 10 7) []
           run_drift
           (firstn 7 (chrono run_drift)) 9 "signed"%string (Ok 20)
           (firstn 9 (skipn 8 (chrono run_drift))) 9 "signed"%string (Ok 0)
           (skipn 18 (chrono run_drift))).
  - simpl. lia.
  - unfold run_drift. rewrite app_nil_r. reflexivity.
  - vm_compute. reflexivity.
  - vm_compute. reflexivity.
Defined.

(** ** The height check *)

Lemma body_event_no_drift_warning t e :
  body_event t e -> is_drift_warning e = false.
Proof.
  intros [r | msgs e' [] | | e' []]; reflexivity.
Qed.

(** C3. An iteration starts by asking the height.  If the answer is not
    the target height minus one, it logs the warning once and goes on
    with the answer plus one as its target; if it is, it logs no warning
    and keeps its target.  Nothing else in the iteration logs that
    warning.  The arithmetic is that of [int64], which is the plain one
    within the range. *)
Theorem drift_check_corrects (w : World) (t : Task) (s : LoopState)
    (h : History) (got : Z) :
  Status w h = Ok got ->
  exists warnings target,
    iteration w t s h =
    iterationBody w t s target (warnings ++ EvStatus (Ok got) :: h) /\
    (if got =? i64 (targetHeight s - 1)
     then warnings = [] /\ target = targetHeight s
     else warnings = [EvLog LWarn "mismatching block height"
                        [FInt "expected" (i64 (targetHeight s - 1));
                         FInt "got" got]] /\
          target = i64 (got + 1)) /\
    (exists evs, fst (iteration w t s h) = evs ++ h /\
       count is_drift_warning evs = length warnings) /\
    (min_i64 < targetHeight s <= max_i64 ->
       i64 (targetHeight s - 1) = targetHeight s - 1) /\
    (min_i64 <= got < max_i64 -> i64 (got + 1) = got + 1).
Proof.
  intros Hst.
  assert (Hrun : exists warnings target,
    iteration w t s h =
    iterationBody w t s target (warnings ++ EvStatus (Ok got) :: h) /\
    (if got =? i64 (targetHeight s - 1)
     then warnings = [] /\ target = targetHeight s
     else warnings = [EvLog LWarn "mismatching block height"
                        [FInt "expected" (i64 (targetHeight s - 1));
                         FInt "got" got]] /\
          target = i64 (got + 1)) /\
    count is_drift_warning warnings = length warnings).
  { rewrite iteration_split. unfold driftCheck.
    rewrite bind_assoc, bind_call, Hst.
    destruct (got =? i64 (targetHeight s - 1)) eqn:Heq; simpl.
    - exists [], (targetHeight s). repeat split.
    - rewrite bind_assoc, bind_log. eexists [_], _. repeat split. }
  destruct Hrun as (warnings & target & Hiter & Hif & Hcount).
  exists warnings, target. split; [exact Hiter |]. split; [exact Hif |].
  split; [| split; intros Hr; apply i64_small; unfold min_i64, max_i64 in *; lia].
  destruct (iterationBody_emits w t s target (warnings ++ EvStatus (Ok got) :: h))
    as (evs & Hevs & Hbody).
  exists (evs ++ warnings ++ [EvStatus (Ok got)]). split.
  - rewrite Hiter, Hevs, <- !app_assoc. reflexivity.
  - rewrite !count_app, Hcount. rewrite (count_zero_Forall _ evs).
    + rewrite count_cons, count_nil. simpl. lia.
    + eapply Forall_impl; [exact Hbody |]. apply body_event_no_drift_warning.
Qed.

Lemma drift_check_corrects_witness :
  exists warnings target,
    iteration world_drift (task0 2 3) (state0 12 7) [] =
    iterationBody world_drift (task0 2 3) (state0 12 7) target
      (warnings ++ [EvStatus (Ok 9)]) /\
    (if 9 =? i64 (12 - 1)
     then warnings = [] /\ target = 12
     else warnings = [EvLog LWarn "mismatching block height"
                        [FInt "expected" (i64 (12 - 1)); FInt "got" 9]] /\
          target = i64 (9 + 1)) /\
    (exists evs,
       fst (iteration world_drift (task0 2 3) (state0 12 7) []) = evs ++ [] /\
       count is_drift_warning evs = length warnings) /\
    (min_i64 < 12 <= max_i64 -> i64 (12 - 1) = 12 - 1) /\
    (min_i64 <= 9 < max_i64 -> i64 (9 + 1) = 9 + 1).
Proof.
  apply (drift_check_corrects world_drift (task0 2 3) (state0 12 7) [] 9).
  reflexivity.
Defined.

(** ** The block times *)

(** Without a correction of the height the map holds one time: the time
    kept for the height before is dropped when the new one is kept. *)
Lemma recordBlock_keeps_one (w : World) (t : Task) (target sent bt : Z)
    (times : gmap Z Z) (h h' : History) (target' : Z) (times' : gmap Z Z) :
  times = ∅ \/ times = {[ i64 (target - 1) := bt ]} ->
  recordBlock w t target sent times h = (h', Done (target', times')) ->
  size times' = 1%nat.
Proof.
  intros Htimes. unfold recordBlock. rewrite bind_call.
  destruct (WaitForHeight w h target); [| discriminate].
  rewrite bind_call. destruct (Block w _ target) as [[btime ntxs] | e];
    [| discriminate].
  destruct Htimes as [-> | ->].
  - rewrite lookup_empty. rewrite bind_assoc, bind_log. simpl.
    intros [= _ _ <-]. rewrite insert_empty. apply map_size_singleton.
  - rewrite lookup_singleton_eq. simpl.
    intros [= _ _ <-]. rewrite delete_singleton_eq, insert_empty.
    apply map_size_singleton.
Qed.

(** C5 fails after a correction of the height.  First iteration: target
    10, the time of block 10 is kept.  Second iteration: the node is at
    15, the target becomes 16, no time is kept for height 15, so nothing
    is dropped, and the time of block 16 is kept beside that of block
    10. *)
Theorem blockTimes_two_after_drift :
  match snd (sendLoop world_drift (task0 2 3) (state0 10 7) []) with
  | Done s =>
    size (blockTimes s) = 2%nat /\
    map_to_list (blockTimes s) = [(10, 10000); (16, 16000)]
  | _ => False
  end.
Proof. vm_compute. split; reflexivity. Qed.

(** ** The run parameters *)

Section Stops.

Context {Q : Event -> Prop}.

Lemma stops_fail {A : Type} e : stops Q (@fail A e).
Proof. intros h. exists [], e. split; [reflexivity | constructor]. Qed.

Lemma stops_bind_l {A B : Type} (m : M A) (k : A -> M B) :
  stops Q m -> stops Q (bind m k).
Proof.
  intros Hm h. destruct (Hm h) as (evs & e & Heq & HQ).
  exists evs, e. unfold bind. rewrite Heq. split; [reflexivity | exact HQ].
Qed.

Lemma stops_bind_r {A B : Type} (m : M A) (k : A -> M B) :
  safe Q m -> (forall a, stops Q (k a)) -> stops Q (bind m k).
Proof.
  intros Hm Hk h. destruct (Hm h) as (evs & Heq & HQ & Hres).
  unfold bind. destruct (m h) as [h1 o]. simpl in Heq, Hres. subst h1.
  destruct Hres as [[a ->] | [e ->]].
  - destruct (Hk a (evs ++ h)) as (evs' & e & Heq' & HQ').
    exists (evs' ++ evs), e. rewrite Heq', <- app_assoc.
    split; [reflexivity | apply Forall_app; split; assumption].
  - exists evs, e. split; [reflexivity | exact HQ].
Qed.

Lemma stops_bind_ret {A B : Type} (a : A) (k : A -> M B) :
  stops Q (k a) -> stops Q (bind (ret a) k).
Proof. intros Hk h. exact (Hk h). Qed.

Lemma safe_ret {A : Type} (a : A) : safe Q (ret a).
Proof.
  intros h. exists []. split; [reflexivity |]. split; [constructor |].
  left. exists a. reflexivity.
Qed.

Lemma safe_fail {A : Type} e : safe Q (@fail A e).
Proof.
  intros h. exists []. split; [reflexivity |]. split; [constructor |].
  right. exists e. reflexivity.
Qed.

Lemma safe_call {A : Type} (ask : History -> reply A) ev wrap :
  (forall r, Q (ev r)) -> safe Q (call ask ev wrap).
Proof.
  intros HQ h. exists [ev (ask h)]. split; [reflexivity |].
  split; [repeat constructor; apply HQ |].
  unfold call. simpl. destruct (ask h) as [a | e]; [left | right]; eauto.
Qed.

Lemma safe_lift {A : Type} (r : reply A) wrap : safe Q (lift r wrap).
Proof. destruct r; [apply safe_ret | apply safe_fail]. Qed.

End Stops.

(** An argument that does not read as an integer stops [parseRun]. *)
Lemma parseRun_stops {B : Type} (Q : Event -> Prop) sb st sm a b c label
    (k : Z * Z * Z -> M B) :
  Atoi sb = None \/ Atoi st = None \/ Atoi sm = None ->
  stops Q (bind (parseRun sb st sm a b c label) k).
Proof.
  intros Hbad. apply stops_bind_l. unfold parseRun.
  destruct (Atoi sb); [| apply stops_fail].
  destruct (Atoi st); [| apply stops_fail].
  destruct (Atoi sm); [| apply stops_fail].
  destruct Hbad as [H | [H | H]]; discriminate.
Qed.

(** C6, as the code has it.  The three run parameters are read with
    [strconv.Atoi].  When one of them is not an integer, [IBCtransferCmd]
    returns an error and so does [DstChainsend], in both cases having
    done no more than the first calls of the set-up: the chain height has
    not been asked and nothing has been built, signed or broadcast. *)
Theorem run_parameters_checked (w : World) (h : History)
    (sb st sm : string) (a0 a1 a2 a3 a4 : string)
    (accountindex : nat) (dstchaininfo mainchain : IBCchain)
    (mainchainibcinfo : list OpenChannel) (cfg : Config) :
  Atoi sb = None \/ Atoi st = None \/ Atoi sm = None ->
  (accountindex < length (Mnemonics cfg))%nat ->
  (exists evs e,
     IBCtransferCmd w [a0; a1; a2; a3; a4; sb; st; sm] h = (evs ++ h, Fail e) /\
     Forall setup_event evs) /\
  (exists evs e,
     DstChainsend w accountindex dstchaininfo mainchainibcinfo mainchain cfg
       [a0; a1; a2; sb; st; sm] h = (evs ++ h, Fail e) /\
     Forall setup_event evs).
Proof.
  intros Hbad Hidx. split.
  - revert h. change (stops setup_event
      (IBCtransferCmd w [a0; a1; a2; a3; a4; sb; st; sm])).
    unfold IBCtransferCmd.
    apply (stops_bind_ret tt).
    apply stops_bind_r; [apply safe_call; constructor | intros _].
    apply stops_bind_r; [apply safe_call; constructor | intros cfg'].
    apply stops_bind_ret.
    apply stops_bind_r; [apply safe_call; constructor | intros _].
    apply stops_bind_r; [apply safe_call; constructor | intros _].
    apply stops_bind_ret.
    apply stops_bind_ret.
    apply stops_bind_ret.
    apply stops_bind_ret.
    apply stops_bind_r; [apply safe_lift | intros c].
    apply stops_bind_ret.
    apply stops_bind_ret.
    apply stops_bind_ret.
    apply parseRun_stops. exact Hbad.
  - revert h. change (stops setup_event
      (DstChainsend w accountindex dstchaininfo mainchainibcinfo mainchain cfg
         [a0; a1; a2; sb; st; sm])).
    unfold DstChainsend.
    apply stops_bind_r; [apply safe_call; constructor | intros _].
    destruct (route mainchainibcinfo dstchaininfo) as [[port channel] recv].
    apply stops_bind_ret.
    apply stops_bind_r; [apply safe_lift | intros c].
    apply stops_bind_r.
    { destruct (nth_error (Mnemonics cfg) accountindex) eqn:Hm;
        [apply safe_ret |].
      apply nth_error_None in Hm. lia. }
    intros mnemonic.
    apply stops_bind_r; [apply safe_lift | intros [addr key]].
    apply stops_bind_ret.
    apply stops_bind_ret.
    apply stops_bind_ret.
    apply stops_bind_ret.
    apply parseRun_stops. exact Hbad.
Qed.

Lemma run_parameters_checked_witness :
  (exists evs e,
     IBCtransferCmd world_ok
       ["gaia"; "transfer"; "channel-0"; "rcv"; "10uatom"; "abc"; "1"; "1"]%string
       [] = (evs ++ [], Fail e) /\
     Forall setup_event evs) /\
  (exists evs e,
     DstChainsend world_ok 0 (chain "iris") [] (chain "gaia") cfg3
       ["gaia"; "transfer"; "channel-0"; "abc"; "1"; "1"]%string
       [] = (evs ++ [], Fail e) /\
     Forall setup_event evs).
Proof.
  apply (run_parameters_checked world_ok [] "abc" "1" "1"
           "gaia" "transfer" "channel-0" "rcv" "10uatom"
           0 (chain "iris") (chain "gaia") [] cfg3).
  - left. reflexivity.
  - simpl. lia.
Defined.

(** C6 as stated fails: "-1" does not read as a non-negative integer,
    [strconv.Atoi] reads it as the integer -1, and the command runs to
    its end without an error (the loop makes no iteration). *)
Lemma negative_blocks_accepted :
  is_nonneg_int "-1" = false /\
  Atoi "-1" = Some (-1) /\
  exists s,
    snd (IBCtransferCmd world_ok
           ["gaia"; "transfer"; "channel-0"; "rcv"; "10uatom"; "-1"; "1"; "1"]%string
           []) = Done s.
Proof.
  split; [reflexivity |]. split; [reflexivity |].
  eexists. vm_compute. reflexivity.
Qed.

(** ** The checks of the multi-chain command *)

Lemma chainFlag_In chains name :
  chainFlag chains name = true <-> In name (map ChainId chains).
Proof.
  induction chains as [| c chains IH]; simpl.
  - split; [discriminate | intros []].
  - destruct (String.eqb (ChainId c) name) eqn:Heq.
    + apply String.eqb_eq in Heq. split; [intros _; left; exact Heq | reflexivity].
    + apply String.eqb_neq in Heq. rewrite IH.
      split; [intros H; right; exact H | intros [H | H]; [contradiction | exact H]].
Qed.

Lemma forallb_false {A : Type} (f : A -> bool) l :
  forallb f l = false -> exists x, In x l /\ f x = false.
Proof.
  induction l as [| a l IH]; simpl; [discriminate |].
  destruct (f a) eqn:Hfa; simpl.
  - intros H. destruct (IH H) as (x & Hin & Hx). exists x. split; [right |]; assumption.
  - intros _. exists a. split; [left; reflexivity | exact Hfa].
Qed.

Lemma bind_checkChains {B : Type} chains names msg (k : unit -> M B) h :
  bind (checkChains chains names msg) k h =
  if forallb (chainFlag chains) names then k tt h else (h, Fail msg).
Proof.
  induction names as [| n names IH]; simpl; [reflexivity |].
  destruct (chainFlag chains n); simpl; [exact IH | reflexivity].
Qed.

Lemma all_known chains names :
  forallb (chainFlag chains) names = true <->
  (forall n, In n names -> In n (map ChainId chains)).
Proof.
  rewrite forallb_forall. split; intros H n Hn; apply chainFlag_In, H, Hn.
Qed.

Lemma Split_nonempty s : Split s <> [].
Proof.
  destruct s as [| c s]; simpl; [discriminate |].
  destruct (Ascii.eqb c ","); [discriminate |].
  destruct (Split s); discriminate.
Qed.

(** C7. Once the logger is set and the configuration read, the command
    returns an error, without having started a task, when a source name
    or a destination name is not the id of a configured chain or when
    there are fewer mnemonics than destination names; otherwise it starts
    one task per source name, and there is at least one. *)
Theorem muilt_checks_before_spawning (w : World) (h : History)
    (a0 a1 a2 a3 a4 a5 : string) (cfg : Config) :
  SetLogger w h = Ok tt ->
  ConfigRead w (EvSetLogger (Ok tt) :: h) = Ok cfg ->
  let ids := map ChainId (Chains cfg) in
  let srcchains := Split a0 in
  let dstchains := Split a1 in
  let h' := EvConfigRead (Ok cfg) :: EvSetLogger (Ok tt) :: h in
  let rejected :=
    (exists n, In n srcchains /\ ~ In n ids) \/
    (exists n, In n dstchains /\ ~ In n ids) \/
    (length (Mnemonics cfg) < length dstchains)%nat in
  (rejected ->
   exists e, IBCMuiltTransferCmd w [a0; a1; a2; a3; a4; a5] h = (h', Fail e)) /\
  (~ rejected ->
   IBCMuiltTransferCmd w [a0; a1; a2; a3; a4; a5] h =
   (h', Done (cfg, dstchains, srcchains)) /\ srcchains <> []).
Proof.
  intros Hlog Hcfg ids srcchains dstchains h' rejected.
  assert (Hrun : IBCMuiltTransferCmd w [a0; a1; a2; a3; a4; a5] h =
    if forallb (chainFlag (Chains cfg)) srcchains then
      if forallb (chainFlag (Chains cfg)) dstchains then
        if Nat.ltb (length (Mnemonics cfg)) (length dstchains) then
          (h', Fail "the number of ibcconfig and mnemics is different"%string)
        else (h', Done (cfg, dstchains, srcchains))
      else (h', Fail "the entered dst chains does not exist in config"%string)
    else (h', Fail "the entered src chains does not exist in config"%string)).
  { unfold IBCMuiltTransferCmd.
    change (ExactArgs 6 [a0; a1; a2; a3; a4; a5]) with (ret tt).
    change (arg [a0; a1; a2; a3; a4; a5] 0) with (ret a0).
    change (arg [a0; a1; a2; a3; a4; a5] 1) with (ret a1).
    rewrite bind_ret, bind_call, Hlog, bind_call, Hcfg, bind_ret.
    rewrite bind_checkChains.
    fold srcchains h'. destruct (forallb (chainFlag (Chains cfg)) srcchains);
      [| reflexivity].
    rewrite bind_ret, bind_checkChains.
    fold dstchains. destruct (forallb (chainFlag (Chains cfg)) dstchains);
      [| reflexivity].
    destruct (Nat.ltb (length (Mnemonics cfg)) (length dstchains));
      reflexivity. }
  rewrite Hrun. clear Hrun.
  destruct (forallb (chainFlag (Chains cfg)) srcchains) eqn:Hsrc.
  2:{ split; [intros _; eexists; reflexivity |].
      intros Hnot. exfalso. apply Hnot. left.
      destruct (forallb_false _ _ Hsrc) as (n & Hin & Hn). exists n.
      split; [exact Hin |]. intros Hid. apply chainFlag_In in Hid.
      fold ids in Hid. congruence. }
  destruct (forallb (chainFlag (Chains cfg)) dstchains) eqn:Hdst.
  2:{ split; [intros _; eexists; reflexivity |].
      intros Hnot. exfalso. apply Hnot. right. left.
      destruct (forallb_false _ _ Hdst) as (n & Hin & Hn). exists n.
      split; [exact Hin |]. intros Hid. apply chainFlag_In in Hid.
      fold ids in Hid. congruence. }
  destruct (Nat.ltb (length (Mnemonics cfg)) (length dstchains)) eqn:Hlen.
  - split; [intros _; eexists; reflexivity |].
    intros Hnot. exfalso. apply Hnot. right. right.
    apply Nat.ltb_lt in Hlen. exact Hlen.
  - split; [| intros _; split; [reflexivity | apply Split_nonempty]].
    intros [(n & Hin & Hn) | [(n & Hin & Hn) | Hlt]]; exfalso.
    + apply Hn. apply (proj1 (all_known _ _) Hsrc). exact Hin.
    + apply Hn. apply (proj1 (all_known _ _) Hdst). exact Hin.
    + apply Nat.ltb_ge in Hlen. lia.
Qed.

Lemma muilt_checks_before_spawning_witness :
  let ids := map ChainId (Chains cfg3) in
  let srcchains := Split "gaia,iris" in
  let dstchains := Split "iris,osmo" in
  let h' := [EvConfigRead (Ok cfg3); EvSetLogger (Ok tt)] in
  let rejected :=
    (exists n, In n srcchains /\ ~ In n ids) \/
    (exists n, In n dstchains /\ ~ In n ids) \/
    (length (Mnemonics cfg3) < length dstchains)%nat in
  (rejected ->
   exists e,
     IBCMuiltTransferCmd world_ok
       ["gaia,iris"; "iris,osmo"; "10"; "1"; "1"; "1"]%string [] =
     (h', Fail e)) /\
  (~ rejected ->
   IBCMuiltTransferCmd world_ok
     ["gaia,iris"; "iris,osmo"; "10"; "1"; "1"; "1"]%string [] =
   (h', Done (cfg3, dstchains, srcchains)) /\ srcchains <> []).
Proof.
  apply (muilt_checks_before_spawning world_ok [] "gaia,iris" "iris,osmo"
           "10" "1" "1" "1" cfg3); reflexivity.
Defined.

(** A source name that is not configured, and more destinations than
    mnemonics. *)
Example muilt_rejects_unknown_source :
  snd (IBCMuiltTransferCmd world_ok
         ["gaia,mars"; "iris"; "10"; "1"; "1"; "1"]%string []) =
  Fail "the entered src chains does not exist in config".
Proof. vm_compute. reflexivity. Qed.

Example muilt_rejects_too_few_mnemonics :
  snd (IBCMuiltTransferCmd world_ok
         ["gaia"; "iris,osmo,iris,osmo"; "10"; "1"; "1"; "1"]%string []) =
  Fail "the number of ibcconfig and mnemics is different".
Proof. vm_compute. reflexivity. Qed.

(** ** The fan-out of a source chain *)

Lemma pickSubchain_known chains mainchain name :
  chainFlag chains name = true ->
  pickSubchain chains mainchain name =
  if String.eqb name (ChainId mainchain) then []
  else [findChain chains name].
Proof.
  induction chains as [| c chains IH]; simpl; [discriminate |].
  destruct (String.eqb name (ChainId mainchain)); [reflexivity |].
  destruct (String.eqb (ChainId c) name); [reflexivity | exact IH].
Qed.

Lemma subchainsOf_known cfg mainchain dstchains :
  (forall d, In d dstchains -> In d (map ChainId (Chains cfg))) ->
  subchainsOf cfg mainchain dstchains =
  map (findChain (Chains cfg))
    (List.filter (fun d => negb (String.eqb d (ChainId mainchain))) dstchains).
Proof.
  unfold subchainsOf.
  induction dstchains as [| d dstchains IH]; intros Hknown; [reflexivity |].
  simpl. rewrite pickSubchain_known
    by (apply chainFlag_In, Hknown; left; reflexivity).
  rewrite IH by (intros d' Hd'; apply Hknown; right; exact Hd').
  destruct (String.eqb d (ChainId mainchain)); reflexivity.
Qed.

Lemma spawnDst_spec subchains infos mainchain : forall index,
  map dc_dstchaininfo (spawnDst index subchains infos mainchain) = subchains /\
  map dc_index (spawnDst index subchains infos mainchain) =
  seq index (length subchains) /\
  Forall (fun c => dc_mainchainibcinfo c = infos /\ dc_mainchain c = mainchain)
    (spawnDst index subchains infos mainchain).
Proof.
  induction subchains as [| d subchains IH]; intros index; simpl.
  - repeat split. constructor.
  - destruct (IH (S index)) as (H1 & H2 & H3). rewrite H1, H2.
    repeat split. constructor; [split; reflexivity | exact H3].
Qed.

Lemma filter_all {A : Type} (f : A -> bool) l :
  (forall x, In x l -> f x = true) -> List.filter f l = l.
Proof.
  induction l as [| a l IH]; intros H; [reflexivity |].
  simpl. rewrite (H a) by (left; reflexivity).
  rewrite IH by (intros x Hx; apply H; right; exact Hx). reflexivity.
Qed.




(** ** A destination without a routing entry *)

Lemma route_none infos dst :
  no_route infos dst = true ->
  route infos dst = (""%string, ""%string, ""%string).
Proof.
  unfold no_route. induction infos as [| i infos IH]; simpl; [reflexivity |].
  destruct (String.eqb (ChainId dst) (ClientChainId i)); simpl;
    [discriminate | exact IH].
Qed.

Lemma loop_event_built_with t e :
  loop_event t e -> built_with (srcPort t) (srcChannel t) (receiver t) e.
Proof.
  intros [e' [] | e' [r | msgs e'' [] | | e'' []]]; simpl; auto.
Qed.

Lemma startAndLoop_emits (Q : Event -> Prop) w addr mk tag :
  (forall e, start_event e -> Q e) ->
  (forall num e, loop_event (mk num) e -> Q e) ->
  emits Q (startAndLoop w addr mk tag).
Proof.
  intros Hstart Hloop. unfold startAndLoop.
  apply emits_bind; [apply emits_call; intros; apply Hstart; constructor |].
  intros account.
  apply emits_bind; [apply emits_call; intros; apply Hstart; constructor |].
  intros st.
  apply emits_bind; [apply emits_log; apply Hstart; constructor | intros _].
  apply emits_bind; [apply emits_call; intros; apply Hstart; constructor |].
  intros _.
  apply emits_bind; [apply emits_log; apply Hstart; constructor | intros _].
  eapply emits_weaken; [| apply sendLoop_emits]. apply Hloop.
Qed.

(** Whatever it does, [DstChainsend] builds messages only with the port,
    channel and receiver that [route] gives. *)
Lemma DstChainsend_built_with w accountindex dst infos mainchain cfg args :
  emits (built_with (fst (fst (route infos dst))) (snd (fst (route infos dst)))
           (snd (route infos dst)))
    (DstChainsend w accountindex dst infos mainchain cfg args).
Proof.
  unfold DstChainsend.
  destruct (route infos dst) as [[port channel] recv]. simpl.
  apply emits_bind; [apply emits_call; intros; exact I | intros _].
  apply emits_bind; [apply emits_arg | intros a2].
  apply emits_bind; [apply emits_lift | intros c].
  apply emits_bind.
  { destruct (nth_error (Mnemonics cfg) accountindex);
      [apply emits_ret | apply emits_panic]. }
  intros mnemonic.
  apply emits_bind; [apply emits_lift | intros [addr key]].
  apply emits_bind; [apply emits_arg | intros a3].
  apply emits_bind; [apply emits_arg | intros a4].
  apply emits_bind; [apply emits_arg | intros a5].
  apply emits_bind; [apply emits_arg | intros a0].
  apply emits_bind.
  { unfold parseRun. destruct (Atoi a3); [| apply emits_fail].
    destruct (Atoi a4); [| apply emits_fail].
    destruct (Atoi a5); [apply emits_ret | apply emits_fail]. }
  intros [[nblocks ntx] nmsg].
  apply startAndLoop_emits.
  - intros e []; exact I.
  - intros num e He. apply loop_event_built_with in He. exact He.
Qed.

(** *** Reaching the first broadcast *)

Lemma has_send_app newer evs older :
  has_send evs -> has_send (newer ++ evs ++ older).
Proof.
  intros (nw & s & n & msgs & tx & r & p & c & co & sd & rc & k & old & ->).
  exists (newer ++ nw), s, n, msgs, tx, r, p, c, co, sd, rc, k, (old ++ older).
  rewrite <- !app_assoc. simpl. reflexivity.
Qed.

(** What follows a computation only adds to its history. *)
Lemma bind_extends {A B : Type} (Q : Event -> Prop) (m : M A) (k : A -> M B) h :
  (forall a, emits Q (k a)) ->
  exists evs, fst (bind m k h) = evs ++ fst (m h).
Proof.
  intros Hk. unfold bind. destruct (m h) as [h1 o]. simpl.
  destruct o as [a | e | |]; try (exists []; reflexivity).
  destruct (Hk a h1) as (evs & Heq & _). exists evs. exact Heq.
Qed.

Lemma sends_bind_l {A B : Type} (Q : Event -> Prop) (m : M A) (k : A -> M B) :
  sends m -> (forall a, emits Q (k a)) -> sends (bind m k).
Proof.
  intros Hm Hk h. destruct (Hm h) as (evs & Heq & Hsend).
  unfold bind. destruct (m h) as [h1 o]. simpl in Heq. subst h1.
  destruct o as [a | e | |]; try (exists evs; split; [reflexivity | exact Hsend]).
  destruct (Hk a (evs ++ h)) as (evs' & Heq' & _).
  exists (evs' ++ evs). split; [rewrite Heq'; apply app_assoc |].
  apply (has_send_app evs' evs []) in Hsend. rewrite app_nil_r in Hsend.
  exact Hsend.
Qed.

Lemma sends_bind_r {A B : Type} (m : M A) (k : A -> M B) :
  succeeds m -> (forall a, sends (k a)) -> sends (bind m k).
Proof.
  intros Hm Hk h. destruct (Hm h) as (evs & a & Heq).
  unfold bind. rewrite Heq.
  destruct (Hk a (evs ++ h)) as (evs' & Heq' & Hsend).
  exists (evs' ++ evs). split; [rewrite Heq'; apply app_assoc |].
  apply (has_send_app [] evs' evs) in Hsend. exact Hsend.
Qed.

Lemma sends_bind_ret {A B : Type} (a : A) (k : A -> M B) :
  sends (k a) -> sends (bind (ret a) k).
Proof. intros Hk h. exact (Hk h). Qed.

Lemma succeeds_call {A : Type} (ask : History -> reply A) ev wrap :
  (forall h, exists x, ask h = Ok x) -> succeeds (call ask ev wrap).
Proof.
  intros Hask h. destruct (Hask h) as [x Hx].
  exists [ev (Ok x)], x. unfold call. rewrite Hx. reflexivity.
Qed.

Lemma succeeds_log lvl msg fields : succeeds (log lvl msg fields).
Proof. intros h. exists [EvLog lvl msg fields], tt. reflexivity. Qed.

Lemma succeeds_ret {A : Type} (a : A) : succeeds (ret a).
Proof. intros h. exists [], a. reflexivity. Qed.

Lemma succeeds_lift {A : Type} (r : reply A) wrap :
  (exists x, r = Ok x) -> succeeds (lift r wrap).
Proof. intros [x ->]. apply succeeds_ret. Qed.

Lemma succeeds_bind {A B : Type} (m : M A) (k : A -> M B) :
  succeeds m -> (forall a, succeeds (k a)) -> succeeds (bind m k).
Proof.
  intros Hm Hk h. destruct (Hm h) as (evs & a & Heq).
  unfold bind. rewrite Heq.
  destruct (Hk a (evs ++ h)) as (evs' & b & Heq').
  exists (evs' ++ evs), b. rewrite Heq', app_assoc. reflexivity.
Qed.

Section FirstBroadcast.

Variable w : World.
Variable t : Task.
Hypothesis Hco : cooperative w.

(** The inner loop starts with a signature and its broadcast. *)
Lemma signLoop_first fuel msgs sent seq h :
  (sent <? txNum t) = true ->
  exists newer tx r,
    fst (signLoop w t (S fuel) msgs sent seq h) =
    newer ++ EvBroadcastTx seq tx r
          :: EvIbcSign seq (accNum t) msgs (Ok tx) :: h.
Proof.
  intros Hlt. simpl. rewrite Hlt, bind_call.
  destruct (co_sign w Hco h seq (accNum t) (privKey t) msgs) as [tx ->].
  set (sgn := EvIbcSign seq (accNum t) msgs (Ok tx)).
  destruct (bind_extends (sign_event t msgs)
              (call (fun h0 => BroadcastTx w h0 tx)
                 (EvBroadcastTx seq tx) (errorf "broadcast tx: "))
              (fun code =>
                 let seq1 := u64 (seq + 1) in
                 if negb (code =? 0)
                 then
                   if code =? mempool_full
                   then
                     bind (log LWarn "mempool is full, stopping" [])
                       (fun _ => ret (sent, u64 (seq1 - 1), true))
                   else signLoop w t fuel msgs (i64 (sent + 1)) seq1
                 else signLoop w t fuel msgs (i64 (sent + 1)) seq1)
              (sgn :: h)) as (newer & Heq).
  { intros code. simpl.
    destruct (negb (code =? 0)); [destruct (code =? mempool_full) |];
      try apply signLoop_emits.
    apply emits_bind; [apply emits_log; constructor | intros; apply emits_ret]. }
  exists newer, tx, (BroadcastTx w (sgn :: h) tx). exact Heq.
Qed.

Lemma fillBlock_sends seq : 1 <= txNum t -> sends (fillBlock w t seq).
Proof.
  intros Htx h. unfold fillBlock.
  destruct (Z.to_nat (txNum t)) as [| fuel] eqn:Hfuel; [lia |].
  simpl. assert (Hlt : (0 <? txNum t) = true) by (apply Z.ltb_lt; lia).
  rewrite Hlt, bind_call.
  destruct (co_create w Hco h (srcPort t) (srcChannel t) (coin t) (accAddr t)
              (receiver t) (msgNum t)) as [msgs ->].
  set (cr := EvCreateTransferBot _ _ _ _ _ _ _).
  destruct (Z.to_nat (txNum t - 0)) as [| fuel'] eqn:Hfuel'; [lia |].
  destruct (signLoop_first fuel' msgs 0 seq (cr :: h) Hlt)
    as (newer & tx & r & Hfirst).
  destruct (bind_extends (body_event t)
              (signLoop w t (S fuel') msgs 0 seq)
              (fun r0 : Z * Z * bool =>
                 match r0 with
                 | (sent', seq', true) => ret (sent', seq')
                 | (sent', seq', false) => fillLoop w t fuel sent' seq'
                 end)
              (cr :: h)) as (evs & Heq).
  { intros [[sent' seq'] [|]]; [apply emits_ret | apply fillLoop_emits]. }
  rewrite Hfirst in Heq.
  eexists (evs ++ newer ++ [_; _; _]). split.
  - rewrite Heq, <- !app_assoc. reflexivity.
  - exists (evs ++ newer), seq, (accNum t), msgs, tx, r,
      (srcPort t), (srcChannel t), (coin t), (accAddr t), (receiver t),
      (msgNum t), [].
    rewrite <- app_assoc. reflexivity.
Qed.

Lemma driftCheck_succeeds target : succeeds (driftCheck w target).
Proof.
  unfold driftCheck. apply succeeds_bind.
  - apply succeeds_call. apply (co_status w Hco).
  - intros got. destruct (negb (got =? i64 (target - 1)));
      [| apply succeeds_ret].
    apply succeeds_bind; [apply succeeds_log | intros; apply succeeds_ret].
Qed.

Lemma iteration_sends s : 1 <= txNum t -> sends (iteration w t s).
Proof.
  intros Htx. rewrite iteration_split.
  apply sends_bind_r; [apply driftCheck_succeeds | intros target].
  unfold iterationBody.
  eapply sends_bind_l; [apply fillBlock_sends; exact Htx |].
  intros [sent seq].
  apply emits_bind.
  - destruct (debugTook t); [apply emits_log | apply emits_ret].
    instantiate (1 := fun _ => True). exact I.
  - intros _. apply emits_bind.
    + eapply emits_weaken; [| apply recordBlock_emits]. intros; exact I.
    + intros [target' times']. apply emits_ret.
Qed.

Lemma sendLoop_sends s :
  1 <= blocks t -> 1 <= txNum t -> sends (sendLoop w t s).
Proof.
  intros Hb Htx. unfold sendLoop.
  destruct (Z.to_nat (blocks t)) as [| fuel] eqn:Hfuel; [lia |].
  simpl. assert (Hlt : (0 <? blocks t) = true) by (apply Z.ltb_lt; lia).
  rewrite Hlt.
  eapply sends_bind_l; [apply iteration_sends; exact Htx |].
  intros s'. apply blockLoop_emits.
Qed.

End FirstBroadcast.

Lemma startAndLoop_sends w addr mk tag :
  cooperative w ->
  (forall num, 1 <= blocks (mk num)) -> (forall num, 1 <= txNum (mk num)) ->
  sends (startAndLoop w addr mk tag).
Proof.
  intros Hco Hb Htx. unfold startAndLoop.
  apply sends_bind_r; [apply succeeds_call; intros h; apply (co_account w Hco) |].
  intros account.
  apply sends_bind_r; [apply succeeds_call; apply (co_status w Hco) |].
  intros st.
  apply sends_bind_r; [apply succeeds_log | intros _].
  apply sends_bind_r; [apply succeeds_call; intros h; apply (co_wait w Hco) |].
  intros _.
  apply sends_bind_r; [apply succeeds_log | intros _].
  apply sendLoop_sends; [exact Hco | apply Hb | apply Htx].
Qed.


Lemma world_ok_cooperative : cooperative world_ok.
Proof. split; intros; eexists; reflexivity. Qed.


(** Such a run: the task ends without an error, having built its
    messages with empty strings and broadcast twice. *)
Example missing_route_run :
  let r := DstChainsend world_ok 0 (chain "iris") routes_osmo (chain "gaia")
             cfg3 ["gaia"; "iris"; "10"; "1"; "2"; "1"]%string [] in
  (exists s, snd r = Done s) /\
  count is_broadcast (fst r) = 2%nat /\
  List.filter is_create (fst r) =
  [EvCreateTransferBot "" "" {| Denom := "ibc/10uatom"; Amount := 10 |}
     "cosmosm0" "" 1 (Ok [""%string])].
Proof.
  vm_compute. split; [eexists; reflexivity | split; reflexivity].
Qed.

(** ** The loops end

    The fuel of the loops is a device of the model.  For run parameters
    in the range of an [int] it is never used up, and the loop does not
    panic: the send loop returns, with a state or with the error of a
    collaborator. *)

Lemma returns_ret {A : Type} (a : A) : returns (ret a).
Proof. intros h. left. exists a. reflexivity. Qed.

Lemma returns_log lvl msg fields : returns (log lvl msg fields).
Proof. intros h. left. exists tt. reflexivity. Qed.

Lemma returns_call {A : Type} (ask : History -> reply A) ev wrap :
  returns (call ask ev wrap).
Proof.
  intros h. unfold call. simpl. destruct (ask h) as [a | e]; [left | right]; eauto.
Qed.

Lemma returns_bind {A B : Type} (m : M A) (k : A -> M B) :
  returns m -> (forall a, returns (k a)) -> returns (bind m k).
Proof.
  intros Hm Hk h. unfold bind. destruct (Hm h) as [[a Ha] | [e He]];
    destruct (m h) as [h1 o]; simpl in *; subst o; [apply Hk | right; eauto].
Qed.

Section LoopsEnd.

Variable w : World.
Variable t : Task.
Hypothesis Htx : txNum t <= max_i64.
Hypothesis Hblocks : blocks t <= max_i64.

Lemma fillBlock_returns seq : returns (fillBlock w t seq).
Proof.
  intros h. destruct (Z_lt_le_dec (txNum t) 0) as [Hneg | Hpos].
  - unfold fillBlock. rewrite fillLoop_guard_false by (apply Z.ltb_ge; lia).
    left. eexists. reflexivity.
  - destruct (fillLoop_count w t (Z.to_nat (txNum t)) 0 seq h)
      as (evs & _ & Hres); [unfold min_i64; lia | lia | lia |].
    unfold fillBlock.
    destruct (snd (fillLoop w t (Z.to_nat (txNum t)) 0 seq h))
      as [a | e | |]; [left | right | |]; eauto; contradiction.
Qed.

Lemma iteration_returns s : returns (iteration w t s).
Proof.
  rewrite iteration_split. apply returns_bind.
  - unfold driftCheck. apply returns_bind; [apply returns_call | intros got].
    destruct (negb (got =? i64 (targetHeight s - 1))); [| apply returns_ret].
    apply returns_bind; [apply returns_log | intros; apply returns_ret].
  - intros target. unfold iterationBody.
    apply returns_bind; [apply fillBlock_returns | intros [sent seq]].
    apply returns_bind.
    { destruct (debugTook t); [apply returns_log | apply returns_ret]. }
    intros _. apply returns_bind; [| intros [target' times']; apply returns_ret].
    unfold recordBlock.
    apply returns_bind; [apply returns_call | intros _].
    apply returns_bind; [apply returns_call | intros [btime ntxs]].
    apply returns_bind.
    { destruct (blockTimes s !! i64 (target - 1)); [apply returns_ret |].
      apply returns_bind; [apply returns_log | intros; apply returns_ret]. }
    intros [d times1].
    apply returns_bind; [apply returns_log | intros; apply returns_ret].
Qed.

Lemma blockLoop_returns fuel : forall i s,
  0 <= i -> (Z.to_nat (blocks t - i) <= fuel)%nat ->
  returns (blockLoop w t fuel i s).
Proof.
  induction fuel as [| fuel IH]; intros i s Hi Hfuel; simpl;
    destruct (i <? blocks t) eqn:Hlt; try apply returns_ret;
    apply Z.ltb_lt in Hlt; [lia |].
  apply returns_bind; [apply iteration_returns | intros s'].
  rewrite i64_small by (unfold min_i64, max_i64 in *; lia).
  apply IH; lia.
Qed.

Lemma sendLoop_returns s : returns (sendLoop w t s).
Proof. apply blockLoop_returns; lia. Qed.

End LoopsEnd.

(** ** Broadcasts and their signatures

    The sequence number recorded with a broadcast is the one its bytes
    were signed at: in the events of a send loop each broadcast follows
    at once the successful [IbcSign] call of that number. *)

Lemma Paired_app evs1 evs2 : Paired evs1 -> Paired evs2 -> Paired (evs2 ++ evs1).
Proof.
  intros H1 H2. induction H2; simpl; [exact H1 | |].
  - apply pa_other; assumption.
  - apply pa_send. assumption.
Qed.

Lemma Paired_quiet evs :
  Forall (fun e => is_broadcast e = false) evs -> Paired evs.
Proof.
  induction 1 as [| e evs He _ IH]; [apply pa_nil | apply pa_other; assumption].
Qed.

Lemma pairs_quiet {A : Type} (m : M A) :
  emits (fun e => is_broadcast e = false) m -> pairs m.
Proof.
  intros Hm h. destruct (Hm h) as (evs & Heq & Hq).
  exists evs. split; [exact Heq | apply Paired_quiet; exact Hq].
Qed.

Lemma pairs_bind {A B : Type} (m : M A) (k : A -> M B) :
  pairs m -> (forall a, pairs (k a)) -> pairs (bind m k).
Proof.
  intros Hm Hk h. destruct (Hm h) as (evs & Heq & Hp).
  unfold bind. destruct (m h) as [h1 o]. simpl in Heq. subst h1.
  destruct o as [a | e | |]; try (exists evs; split; [reflexivity | exact Hp]).
  destruct (Hk a (evs ++ h)) as (evs' & Heq' & Hp').
  exists (evs' ++ evs). split; [rewrite Heq'; apply app_assoc |].
  apply Paired_app; assumption.
Qed.

Lemma signLoop_pairs w t fuel : forall msgs sent seq,
  pairs (signLoop w t fuel msgs sent seq).
Proof.
  induction fuel as [| fuel IH]; intros msgs sent seq h; simpl;
    destruct (sent <? txNum t);
    try (exists []; split; [reflexivity | apply pa_nil]).
  rewrite bind_call.
  destruct (IbcSign w h seq (accNum t) (privKey t) msgs) as [tx | e].
  2:{ eexists [_]. split; [reflexivity |].
      apply pa_other; [reflexivity | apply pa_nil]. }
  rewrite bind_call.
  set (sgn := EvIbcSign seq (accNum t) msgs (Ok tx)).
  assert (Hpair : forall r, Paired [EvBroadcastTx seq tx r; sgn]).
  { intros r. apply pa_send. apply pa_nil. }
  destruct (BroadcastTx w (sgn :: h) tx) as [code | e].
  2:{ eexists [_; _]. split; [reflexivity | apply Hpair]. }
  assert (Hk : forall (m : M (Z * Z * bool)), pairs m ->
            exists evs,
              fst (m (EvBroadcastTx seq tx (Ok code) :: sgn :: h)) = evs ++ h /\
              Paired evs).
  { intros m Hm. destruct (Hm (EvBroadcastTx seq tx (Ok code) :: sgn :: h))
      as (evs & Heq & Hp).
    exists (evs ++ [EvBroadcastTx seq tx (Ok code); sgn]).
    split; [rewrite Heq, <- app_assoc; reflexivity |].
    apply Paired_app; [apply Hpair | exact Hp]. }
  destruct (negb (code =? 0)); [destruct (code =? mempool_full) |];
    try (apply Hk; apply IH).
  apply Hk. apply pairs_quiet.
  apply emits_bind; [apply emits_log; reflexivity | intros; apply emits_ret].
Qed.

Lemma fillLoop_pairs w t fuel : forall sent seq,
  pairs (fillLoop w t fuel sent seq).
Proof.
  induction fuel as [| fuel IH]; intros sent seq; simpl;
    destruct (sent <? txNum t);
    try (intros h; exists []; split; [reflexivity | apply pa_nil]).
  apply pairs_bind; [apply pairs_quiet; apply emits_call; reflexivity |].
  intros msgs. apply pairs_bind; [apply signLoop_pairs |].
  intros [[sent' seq'] [|]]; [apply pairs_quiet; apply emits_ret | apply IH].
Qed.

Lemma iteration_pairs w t s : pairs (iteration w t s).
Proof.
  rewrite iteration_split. apply pairs_bind.
  - apply pairs_quiet. eapply emits_weaken; [| apply driftCheck_emits].
    apply drift_event_quiet.
  - intros target. unfold iterationBody.
    apply pairs_bind; [apply fillLoop_pairs | intros [sent seq]].
    apply pairs_bind.
    { apply pairs_quiet.
      destruct (debugTook t); [apply emits_log; reflexivity | apply emits_ret]. }
    intros _. apply pairs_bind.
    + apply pairs_quiet. eapply emits_weaken; [| apply recordBlock_emits].
      apply record_event_quiet.
    + intros [target' times']. apply pairs_quiet, emits_ret.
Qed.

Lemma blockLoop_pairs w t fuel : forall i s, pairs (blockLoop w t fuel i s).
Proof.
  induction fuel as [| fuel IH]; intros i s; simpl; destruct (i <? blocks t);
    try (intros h; exists []; split; [reflexivity | apply pa_nil]).
  apply pairs_bind; [apply iteration_pairs | intros s'; apply IH].
Qed.

Lemma Paired_inv evs : Paired evs ->
  forall newer s tx r older,
    evs = newer ++ EvBroadcastTx s tx r :: older ->
    exists n msgs rest, older = EvIbcSign s n msgs (Ok tx) :: rest.
Proof.
  induction 1 as [| e h He Hp IH | s0 n0 msgs0 tx0 r0 h Hp IH];
    intros newer s tx r older Heq.
  - destruct newer; discriminate.
  - destruct newer as [| x newer]; simpl in Heq.
    + injection Heq as -> _. discriminate.
    + injection Heq as _ ->. eapply IH. reflexivity.
  - destruct newer as [| x newer]; simpl in Heq.
    + injection Heq as -> -> _ <-. eauto.
    + injection Heq as _ Heq. destruct newer as [| y newer]; simpl in Heq.
      * discriminate.
      * injection Heq as _ ->. eapply IH. reflexivity.
Qed.

(** X3. In what a send loop adds to the history, a broadcast recorded at
    the sequence number [s] on the bytes [tx] comes right after the call of
    [IbcSign] at [s] that returned [tx]. *)
Lemma broadcast_follows_its_signature w t st h evs newer s tx r older :
  fst (sendLoop w t st h) = evs ++ h ->
  evs = newer ++ EvBroadcastTx s tx r :: older ->
  exists n msgs rest, older = EvIbcSign s n msgs (Ok tx) :: rest.
Proof.
  intros Hevs Heq.
  destruct (blockLoop_pairs w t (Z.to_nat (blocks t)) 0 st h)
    as (evs' & Heq' & Hp).
  fold (sendLoop w t st) in Heq'. rewrite Hevs in Heq'.
  apply app_inv_tail in Heq'. subst evs'.
  eapply Paired_inv; eassumption.
Qed.

(** * Further properties of the send loop *)

(** ** Failures are fatal and come last *)

Lemma failfast_ret {A : Type} (a : A) : failfast (ret a).
Proof. intros h. exists []. split; reflexivity. Qed.

Lemma failfast_nofuel {A : Type} : failfast (@nofuel A).
Proof. intros h. exists []. split; reflexivity. Qed.

Lemma failfast_log lvl msg fields : failfast (log lvl msg fields).
Proof. intros h. exists [EvLog lvl msg fields]. split; reflexivity. Qed.

Lemma failfast_call {A : Type} (ask : History -> reply A) ev wrap :
  (forall a, is_failed (ev (Ok a)) = false) ->
  (forall e, is_failed (ev (Err e)) = true) ->
  failfast (call ask ev wrap).
Proof.
  intros Hok Herr h. exists [ev (ask h)]. split; [reflexivity |].
  unfold call. simpl. destruct (ask h) as [a | e].
  - rewrite count_cons, Hok. reflexivity.
  - exists (ev (Err e)), []. repeat split. apply Herr.
Qed.

Lemma failfast_bind {A B : Type} (m : M A) (k : A -> M B) :
  failfast m -> (forall a, failfast (k a)) -> failfast (bind m k).
Proof.
  intros Hm Hk h. destruct (Hm h) as (evs & Heq & Hres).
  unfold bind. destruct (m h) as [h1 o]. simpl in Heq, Hres. subst h1.
  destruct o as [a | e | |]; try (exists evs; split; [reflexivity | exact Hres]).
  destruct (Hk a (evs ++ h)) as (evs' & Heq' & Hres').
  exists (evs' ++ evs). split; [rewrite Heq'; apply app_assoc |].
  destruct (snd (k a (evs ++ h))) as [b | e | |].
  - rewrite count_app, Hres, Hres'. reflexivity.
  - destruct Hres' as (e0 & rest & -> & He0 & Hrest).
    exists e0, (rest ++ evs). repeat split; [exact He0 |].
    rewrite count_app, Hres, Hrest. reflexivity.
  - exact Hres'.
  - rewrite count_app, Hres, Hres'. reflexivity.
Qed.

Ltac failfast_step :=
  first
    [ apply failfast_ret
    | apply failfast_nofuel
    | apply failfast_log
    | apply failfast_call; intros; reflexivity
    | apply failfast_bind; [| intros ?] ].

Section FailFast.

Variable w : World.
Variable t : Task.

Lemma signLoop_failfast fuel : forall msgs sent seq,
  failfast (signLoop w t fuel msgs sent seq).
Proof.
  induction fuel as [| fuel IH]; intros msgs sent seq; simpl;
    destruct (sent <? txNum t); try failfast_step.
  - failfast_step.
  - failfast_step; [failfast_step |].
    destruct (negb (a0 =? 0)); [destruct (a0 =? mempool_full) |];
      try apply IH.
    repeat failfast_step.
Qed.

Lemma fillLoop_failfast fuel : forall sent seq,
  failfast (fillLoop w t fuel sent seq).
Proof.
  induction fuel as [| fuel IH]; intros sent seq; simpl;
    destruct (sent <? txNum t); try failfast_step.
  - failfast_step.
  - failfast_step; [apply signLoop_failfast |].
    destruct a0 as [[sent' seq'] [|]]; [failfast_step | apply IH].
Qed.

Lemma recordBlock_failfast target sent times :
  failfast (recordBlock w t target sent times).
Proof.
  unfold recordBlock. failfast_step; [failfast_step |].
  failfast_step; [failfast_step |]. destruct a0 as [btime ntxs].
  failfast_step.
  - destruct (times !! i64 (target - 1)); repeat failfast_step.
  - destruct a0 as [d times1]. repeat failfast_step.
Qed.

Lemma iteration_failfast s : failfast (iteration w t s).
Proof.
  rewrite iteration_split. failfast_step.
  - unfold driftCheck. failfast_step; [failfast_step |].
    destruct (negb (a =? i64 (targetHeight s - 1))); repeat failfast_step.
  - unfold iterationBody. failfast_step; [apply fillLoop_failfast |].
    destruct a0 as [sent seq]. failfast_step.
    + destruct (debugTook t); failfast_step.
    + failfast_step; [apply recordBlock_failfast |].
      destruct a1 as [target' times']. failfast_step.
Qed.

Lemma blockLoop_failfast fuel : forall i s, failfast (blockLoop w t fuel i s).
Proof.
  induction fuel as [| fuel IH]; intros i s; simpl; destruct (i <? blocks t);
    try failfast_step.
  - apply iteration_failfast.
  - apply IH.
Qed.

End FailFast.

(** X4. For run parameters in the range of an [int], the send loop
    ends with a state or with an error, and never panics.  It ends
    with a state only when no call to a collaborator has failed, and
    with an error only when the latest call has failed and none before
    it: a failed call is never retried nor followed by another call. *)
Theorem sendLoop_fails_fast (w : World) (t : Task) (s : LoopState)
    (h evs : History) :
  txNum t <= max_i64 -> blocks t <= max_i64 ->
  fst (sendLoop w t s h) = evs ++ h ->
  match snd (sendLoop w t s h) with
  | Done _ => count is_failed evs = 0%nat
  | Fail _ =>
    exists e rest,
      evs = e :: rest /\ is_failed e = true /\ count is_failed rest = 0%nat
  | Panic => False
  | NoFuel => False
  end.
Proof.
  intros Htx Hb Hevs.
  destruct (blockLoop_failfast w t (Z.to_nat (blocks t)) 0 s h)
    as (evs' & Heq & Hres).
  fold (sendLoop w t s) in Heq, Hres.
  rewrite Hevs in Heq. apply app_inv_tail in Heq. subst evs'.
  destruct (sendLoop_returns w t Htx Hb s h) as [[a Ha] | [e He]].
  - rewrite Ha in *. exact Hres.
  - rewrite He in *. exact Hres.
Qed.

Lemma sendLoop_fails_fast_witness :
  match snd (sendLoop world_broken (task0 1 3) (state0 10 7) []) with
  | Done _ =>
    count is_failed
      (fst (sendLoop world_broken (task0 1 3) (state0 10 7) [])) = 0%nat
  | Fail _ =>
    exists e rest,
      fst (sendLoop world_broken (task0 1 3) (state0 10 7) []) = e :: rest /\
      is_failed e = true /\ count is_failed rest = 0%nat
  | Panic => False
  | NoFuel => False
  end.
Proof.
  apply (sendLoop_fails_fast world_broken (task0 1 3) (state0 10 7) []
           (fst (sendLoop world_broken (task0 1 3) (state0 10 7) []))).
  - simpl. unfold max_i64. lia.
  - simpl. unfold max_i64. lia.
  - rewrite app_nil_r. reflexivity.
Defined.

(** The run above: the second broadcast fails in transport and is the
    last thing the task does. *)
Example sendLoop_broken_run :
  snd (sendLoop world_broken (task0 1 3) (state0 10 7) []) =
  Fail "broadcast tx: connection reset" /\
  hd_error (fst (sendLoop world_broken (task0 1 3) (state0 10 7) [])) =
  Some (EvBroadcastTx 8 "signed" (Err "connection reset")).
Proof. vm_compute. split; reflexivity. Qed.

(** ** One warning per rejection *)

Lemma balanced_quiet {A : Type} (p q : Event -> bool) (m : M A) :
  emits (fun e => p e = false /\ q e = false) m -> balanced p q m.
Proof.
  intros Hm h. destruct (Hm h) as (evs & Heq & Hq).
  exists evs. split; [exact Heq |].
  rewrite (count_zero_Forall p), (count_zero_Forall q); [reflexivity | |];
    eapply Forall_impl; try exact Hq; intros e [H1 H2]; assumption.
Qed.

Lemma balanced_bind {A B : Type} (p q : Event -> bool) (m : M A)
    (k : A -> M B) :
  balanced p q m -> (forall a, balanced p q (k a)) -> balanced p q (bind m k).
Proof.
  intros Hm Hk h. destruct (Hm h) as (evs & Heq & Hc).
  unfold bind. destruct (m h) as [h1 o]. simpl in Heq. subst h1.
  destruct o as [a | e | |]; try (exists evs; split; [reflexivity | exact Hc]).
  destruct (Hk a (evs ++ h)) as (evs' & Heq' & Hc').
  exists (evs' ++ evs). split; [rewrite Heq'; apply app_assoc |].
  rewrite !count_app, Hc, Hc'. reflexivity.
Qed.

Section Warnings.

Variable w : World.
Variable t : Task.

Lemma signLoop_balanced fuel : forall msgs sent seq,
  balanced is_full_warning is_saturation (signLoop w t fuel msgs sent seq).
Proof.
  induction fuel as [| fuel IH]; intros msgs sent seq h; simpl;
    destruct (sent <? txNum t); try (exists []; split; reflexivity).
  rewrite bind_call.
  destruct (IbcSign w h seq (accNum t) (privKey t) msgs) as [tx | e];
    [| eexists [_]; split; reflexivity].
  rewrite bind_call.
  destruct (BroadcastTx w _ tx) as [code | e];
    [| eexists [_; _]; split; reflexivity].
  set (sgn := EvIbcSign seq (accNum t) msgs (Ok tx)).
  set (bc := EvBroadcastTx seq tx (Ok code)).
  assert (Hcont : (code =? mempool_full) = false ->
    exists evs,
      fst (signLoop w t fuel msgs (i64 (sent + 1)) (u64 (seq + 1))
             (bc :: sgn :: h)) = evs ++ h /\
      count is_full_warning evs = count is_saturation evs).
  { intros Hcode.
    destruct (IH msgs (i64 (sent + 1)) (u64 (seq + 1)) (bc :: sgn :: h))
      as (evs & Heq & Hc).
    exists (evs ++ [bc; sgn]). split; [rewrite Heq, <- app_assoc; reflexivity |].
    rewrite !count_app, Hc. unfold bc, sgn. rewrite !count_cons. simpl.
    rewrite Hcode. reflexivity. }
  destruct (code =? 0) eqn:H0; simpl.
  - apply Hcont. apply Z.eqb_eq in H0. subst code. reflexivity.
  - destruct (code =? mempool_full) eqn:Hfull; [| apply Hcont; reflexivity].
    rewrite bind_log. simpl. eexists [_; _; _]. split; [reflexivity |].
    unfold bc, sgn. rewrite !count_cons. simpl. rewrite Hfull. reflexivity.
Qed.

Lemma iteration_balanced s :
  balanced is_full_warning is_saturation (iteration w t s).
Proof.
  rewrite iteration_split. apply balanced_bind.
  - apply balanced_quiet. eapply emits_weaken; [| apply driftCheck_emits].
    intros e []; split; reflexivity.
  - intros target. unfold iterationBody. apply balanced_bind.
    + unfold fillBlock. generalize (Z.to_nat (txNum t)) 0 (accSeq s).
      intros fuel. induction fuel as [| fuel IH]; intros sent seq; simpl;
        destruct (sent <? txNum t);
        try (intros h; exists []; split; reflexivity).
      apply balanced_bind.
      { apply balanced_quiet. apply emits_call. intros; split; reflexivity. }
      intros msgs. apply balanced_bind; [apply signLoop_balanced |].
      intros [[sent' seq'] [|]]; [| apply IH].
      intros h; exists []; split; reflexivity.
    + intros [sent seq]. apply balanced_bind.
      { apply balanced_quiet.
        destruct (debugTook t); [apply emits_log; split; reflexivity
                                | apply emits_ret]. }
      intros _. apply balanced_bind.
      * apply balanced_quiet. eapply emits_weaken; [| apply recordBlock_emits].
        intros e []; split; reflexivity.
      * intros [target' times']. intros h; exists []; split; reflexivity.
Qed.

Lemma blockLoop_balanced fuel : forall i s,
  balanced is_full_warning is_saturation (blockLoop w t fuel i s).
Proof.
  induction fuel as [| fuel IH]; intros i s; simpl; destruct (i <? blocks t);
    try (intros h; exists []; split; reflexivity).
  apply balanced_bind; [apply iteration_balanced | intros s'; apply IH].
Qed.

End Warnings.

(** X5. Whatever the node answers, the send loop logs the warning of a
    full mempool as many times as a broadcast was answered with the code
    0x14: once per rejection and for no other reason. *)
Theorem full_mempool_warned_once_each (w : World) (t : Task) (s : LoopState)
    (h evs : History) :
  fst (sendLoop w t s h) = evs ++ h ->
  count is_full_warning evs = count is_saturation evs.
Proof.
  intros Hevs.
  destruct (blockLoop_balanced w t (Z.to_nat (blocks t)) 0 s h)
    as (evs' & Heq & Hc).
  fold (sendLoop w t s) in Heq.
  rewrite Hevs in Heq. apply app_inv_tail in Heq. subst evs'. exact Hc.
Qed.

Lemma full_mempool_warned_once_each_witness :
  count is_full_warning run_drift = count is_saturation run_drift.
Proof.
  apply (full_mempool_warned_once_each world_drift (task0 2 3) (state0 10 7)
           [] run_drift).
  unfold run_drift. rewrite app_nil_r. reflexivity.
Defined.

(** ** One committed block per iteration *)

Lemma tallies_quiet {A : Type} (p : Event -> bool) (m : M A) :
  emits (fun e => p e = false) m -> tallies p 0 m.
Proof.
  intros Hm h. destruct (Hm h) as (evs & Heq & Hq).
  exists evs. split; [exact Heq |]. intros a _.
  apply count_zero_Forall. exact Hq.
Qed.

Lemma tallies_bind {A B : Type} (p : Event -> bool) n1 n2 (m : M A)
    (k : A -> M B) :
  tallies p n1 m -> (forall a, tallies p n2 (k a)) ->
  tallies p (n1 + n2) (bind m k).
Proof.
  intros Hm Hk h. destruct (Hm h) as (evs & Heq & Hc).
  unfold bind. destruct (m h) as [h1 o]. simpl in Heq, Hc. subst h1.
  destruct o as [a | e | |];
    try (exists evs; split; [reflexivity | intros b; discriminate]).
  destruct (Hk a (evs ++ h)) as (evs' & Heq' & Hc').
  exists (evs' ++ evs). split; [rewrite Heq'; apply app_assoc |].
  intros b Hb. rewrite count_app, (Hc a eq_refl), (Hc' b Hb). lia.
Qed.

Lemma tallies_one {A : Type} (p : Event -> bool) (m : M A) :
  (forall h, exists e, fst (m h) = e :: h /\ p e = true) -> tallies p 1 m.
Proof.
  intros Hm h. destruct (Hm h) as (e & Heq & He).
  exists [e]. split; [exact Heq |]. intros a _.
  rewrite count_cons, He. reflexivity.
Qed.

Section Tallies.

Variable w : World.
Variable t : Task.
Variable p : Event -> bool.

(** [p] holds of no event of the filling of a block, and of a number of
    the events of the height check and of the end of an iteration. *)
Hypothesis Hbody :
  forall e, body_event t e -> (forall e', record_event e' -> e <> e') ->
            p e = false.
Variable nd nr : nat.
Hypothesis Hdrift : forall target, tallies p nd (driftCheck w target).
Hypothesis Hrecord :
  forall target sent times, tallies p nr (recordBlock w t target sent times).

Lemma fillLoop_tallies fuel : forall sent seq,
  tallies p 0 (fillLoop w t fuel sent seq).
Proof.
  intros sent seq. apply tallies_quiet. revert sent seq.
  induction fuel as [| fuel IH]; intros sent seq; simpl;
    destruct (sent <? txNum t); try apply emits_ret; try apply emits_nofuel.
  apply emits_bind.
  { apply emits_call. intros r. apply Hbody; [constructor |].
    intros e' []; discriminate. }
  intros msgs. apply emits_bind.
  - eapply emits_weaken; [| apply signLoop_emits].
    intros e He. apply Hbody; [eapply be_sign; exact He |].
    intros e' He' ->. destruct He; inversion He'.
  - intros [[sent' seq'] [|]]; [apply emits_ret | apply IH].
Qed.

Lemma iteration_tallies s : tallies p (nd + nr) (iteration w t s).
Proof.
  rewrite iteration_split. apply tallies_bind; [apply Hdrift |].
  intros target. unfold iterationBody.
  apply (tallies_bind p 0 nr); [apply fillLoop_tallies |].
  intros [sent seq]. apply (tallies_bind p 0 nr).
  - apply tallies_quiet.
    destruct (debugTook t); [| apply emits_ret].
    apply emits_log. apply Hbody; [constructor |].
    intros e' []; discriminate.
  - intros _. replace nr with (nr + 0)%nat by lia.
    apply tallies_bind; [apply Hrecord |].
    intros [target' times']. apply tallies_quiet, emits_ret.
Qed.

Lemma blockLoop_tallies fuel : forall i s,
  0 <= i -> blocks t <= max_i64 ->
  tallies p (Z.to_nat (blocks t - i) * (nd + nr)) (blockLoop w t fuel i s).
Proof.
  induction fuel as [| fuel IH]; intros i s Hi Hb; simpl;
    destruct (i <? blocks t) eqn:Hlt.
  - intros h. exists []. split; [reflexivity | intros a; discriminate].
  - apply Z.ltb_ge in Hlt. replace (Z.to_nat (blocks t - i)) with 0%nat by lia.
    apply tallies_quiet, emits_ret.
  - apply Z.ltb_lt in Hlt.
    replace (Z.to_nat (blocks t - i) * (nd + nr))%nat
      with ((nd + nr) + Z.to_nat (blocks t - (i + 1)) * (nd + nr))%nat
      by (replace (Z.to_nat (blocks t - i))
            with (S (Z.to_nat (blocks t - (i + 1)))) by lia; simpl; lia).
    apply tallies_bind; [apply iteration_tallies |].
    intros s'. rewrite i64_small by (unfold min_i64, max_i64 in *; lia).
    apply IH; lia.
  - apply Z.ltb_ge in Hlt. replace (Z.to_nat (blocks t - i)) with 0%nat by lia.
    apply tallies_quiet, emits_ret.
Qed.

End Tallies.

Lemma driftCheck_tallies_status w target :
  tallies is_status 1 (driftCheck w target).
Proof.
  unfold driftCheck. replace 1%nat with (1 + 0)%nat by reflexivity.
  apply tallies_bind.
  - apply tallies_one. intros h. eexists. split; reflexivity.
  - intros got. apply tallies_quiet.
    destruct (negb (got =? i64 (target - 1))); [| apply emits_ret].
    apply emits_bind; [apply emits_log; reflexivity | intros; apply emits_ret].
Qed.

Lemma recordBlock_tallies_committed w t target sent times :
  tallies is_committed 1 (recordBlock w t target sent times).
Proof.
  unfold recordBlock.
  apply (tallies_bind is_committed 0 1).
  { apply tallies_quiet, emits_call. reflexivity. }
  intros _. apply (tallies_bind is_committed 0 1).
  { apply tallies_quiet, emits_call. reflexivity. }
  intros [btime ntxs]. apply (tallies_bind is_committed 0 1).
  { apply tallies_quiet. destruct (times !! i64 (target - 1)); [apply emits_ret |].
    apply emits_bind; [apply emits_log; reflexivity | intros; apply emits_ret]. }
  intros [d times1]. replace 1%nat with (1 + 0)%nat by reflexivity.
  apply tallies_bind.
  - apply tallies_one. intros h. eexists. split; reflexivity.
  - intros _. apply tallies_quiet, emits_ret.
Qed.

(** X1. A send loop that ends without an error has asked the height
    and reported a committed block once per iteration, [blocks] times in
    all, and not at all when [blocks] is zero or negative. *)
Theorem sendLoop_commits_every_block (w : World) (t : Task)
    (s s' : LoopState) (h evs : History) :
  blocks t <= max_i64 ->
  sendLoop w t s h = (evs ++ h, Done s') ->
  count is_committed evs = Z.to_nat (blocks t) /\
  count is_status evs = Z.to_nat (blocks t).
Proof.
  intros Hb Hrun.
  assert (Hfst : fst (sendLoop w t s h) = evs ++ h) by (rewrite Hrun; reflexivity).
  assert (Hsnd : snd (sendLoop w t s h) = Done s') by (rewrite Hrun; reflexivity).
  split.
  - destruct (blockLoop_tallies w t is_committed) with
      (nd := 0%nat) (nr := 1%nat) (fuel := Z.to_nat (blocks t)) (i := 0)
      (s := s) (h := h) as (evs' & Heq & Hc); try lia.
    + intros e He Hne. destruct He as [r | msgs e He | | e He]; try reflexivity.
      * destruct He; reflexivity.
      * exfalso. apply (Hne e He). reflexivity.
    + intros target. apply tallies_quiet.
      eapply emits_weaken; [| apply driftCheck_emits]. intros e []; reflexivity.
    + intros. apply recordBlock_tallies_committed.
    + fold (sendLoop w t s) in Heq, Hc. rewrite Hfst in Heq.
      apply app_inv_tail in Heq. subst evs'.
      rewrite (Hc s' Hsnd). rewrite Z.sub_0_r. lia.
  - destruct (blockLoop_tallies w t is_status) with
      (nd := 1%nat) (nr := 0%nat) (fuel := Z.to_nat (blocks t)) (i := 0)
      (s := s) (h := h) as (evs' & Heq & Hc); try lia.
    + intros e He Hne. destruct He as [r | msgs e He | | e He]; try reflexivity.
      * destruct He; reflexivity.
      * destruct He; reflexivity.
    + intros target. apply driftCheck_tallies_status.
    + intros. apply tallies_quiet.
      eapply emits_weaken; [| apply recordBlock_emits]. intros e []; reflexivity.
    + fold (sendLoop w t s) in Heq, Hc. rewrite Hfst in Heq.
      apply app_inv_tail in Heq. subst evs'.
      rewrite (Hc s' Hsnd). rewrite Z.sub_0_r. lia.
Qed.

Lemma sendLoop_commits_every_block_witness :
  count is_committed
    (fst (sendLoop world_steady (task0 3 2) (state0 10 7) [])) =
  Z.to_nat 3 /\
  count is_status
    (fst (sendLoop world_steady (task0 3 2) (state0 10 7) [])) =
  Z.to_nat 3.
Proof.
  apply (sendLoop_commits_every_block world_steady (task0 3 2) (state0 10 7)
           (match snd (sendLoop world_steady (task0 3 2) (state0 10 7) []) with
            | Done s' => s'
            | _ => state0 0 0
            end) []).
  - simpl. unfold max_i64. lia.
  - vm_compute. reflexivity.
Defined.

(** ** The sequence number at the end of a run *)

Lemma u64_succ a : u64 (u64 a + 1) = u64 (a + 1).
Proof. unfold u64. apply Zplus_mod_idemp_l. Qed.

Lemma is_counted_broadcast e : is_broadcast e = false -> is_counted e = false.
Proof. destruct e; try reflexivity. discriminate. Qed.

Lemma SeqLog_total start evs cur :
  0 <= start < 2 ^ 64 -> SeqLog start evs cur ->
  forall c, cur = Some c -> c = u64 (start + Z.of_nat (count is_counted evs)).
Proof.
  intros Hstart.
  induction 1 as [| e h cur He Hlog IH | s tx code h Hlog IH
                  | s tx e h Hlog IH]; intros c Hc.
  - injection Hc as <-. rewrite count_nil, Z.add_0_r, u64_small; auto.
  - rewrite count_cons, (is_counted_broadcast e He). apply IH. exact Hc.
  - injection Hc as <-. specialize (IH s eq_refl).
    rewrite count_cons. unfold seq_after. simpl.
    destruct (code =? mempool_full); simpl; [exact IH |].
    rewrite IH, u64_succ. f_equal. lia.
  - discriminate.
Qed.

(** X7. A send loop that ends without an error leaves the sequence
    number at its first value plus the number of broadcasts that were
    not rejected for a full mempool, in [uint64] arithmetic: a rejected
    broadcast consumes no number, every other one consumes one, whatever
    its response code. *)
Theorem sendLoop_sequence_total (w : World) (t : Task) (s s' : LoopState)
    (h evs : History) :
  0 <= accSeq s < 2 ^ 64 ->
  sendLoop w t s h = (evs ++ h, Done s') ->
  accSeq s' = u64 (accSeq s + Z.of_nat (count is_counted evs)).
Proof.
  intros Hrange Hrun.
  destruct (blockLoop_keeps_seq w t (Z.to_nat (blocks t)) 0 s Hrange h)
    as (evs' & Heq & Hres).
  fold (sendLoop w t s) in Heq, Hres. rewrite Hrun in Heq, Hres.
  simpl in Heq, Hres. apply app_inv_tail in Heq. subst evs'.
  destruct Hres as [Hlog _].
  eapply SeqLog_total; [exact Hrange | exact Hlog | reflexivity].
Qed.

Lemma sendLoop_sequence_total_witness :
  accSeq (match snd (sendLoop world_drift (task0 2 3) (state0 10 7) []) with
          | Done s' => s'
          | _ => state0 0 0
          end) =
  u64 (7 + Z.of_nat (count is_counted run_drift)).
Proof.
  apply (sendLoop_sequence_total world_drift (task0 2 3) (state0 10 7)
           (match snd (sendLoop world_drift (task0 2 3) (state0 10 7) []) with
            | Done s' => s'
            | _ => state0 0 0
            end) [] run_drift).
  - simpl. lia.
  - vm_compute. reflexivity.
Defined.

(** The latest broadcast of a run with a correction of the height comes
    right after its signature. *)
Lemma broadcast_follows_its_signature_witness :
  exists n msgs rest,
    skipn 5 run_drift = EvIbcSign 11 n msgs (Ok "signed"%string) :: rest.
Proof.
  apply (broadcast_follows_its_signature world_drift (task0 2 3)
           (state0 10 7) [] run_drift (firstn 4 run_drift) 11
           "signed"%string (Ok 0) (skipn 5 run_drift)).
  - unfold run_drift. rewrite app_nil_r. reflexivity.
  - vm_compute. reflexivity.
Defined.

(** ** The target height and the block times *)

Lemma recordBlock_done w t target sent times h h' target' times' :
  recordBlock w t target sent times h = (h', Done (target', times')) ->
  target' = i64 (target + 1) /\
  exists btime ntxs newer,
    h' = newer ++ EvBlock target (Ok (btime, ntxs))
               :: EvWaitForHeight target (Ok tt) :: h /\
    times' = <[target := btime]>
               (match times !! i64 (target - 1) with
                | Some _ => delete (i64 (target - 1)) times
                | None => times
                end) /\
    count is_block newer = 0%nat.
Proof.
  unfold recordBlock. rewrite bind_call.
  destruct (WaitForHeight w h target) as [[] | e]; [| discriminate].
  rewrite bind_call.
  destruct (Block w _ target) as [[btime ntxs] | e]; [| discriminate].
  destruct (times !! i64 (target - 1)) as [bt |].
  - simpl. intros [= <- <- <-]. split; [reflexivity |].
    eexists btime, ntxs, [_]. repeat split.
  - rewrite bind_assoc, bind_log. simpl. intros [= <- <- <-].
    split; [reflexivity |]. eexists btime, ntxs, [_; _]. repeat split.
Qed.

Lemma iterationBody_done w t s target h h' s' :
  iterationBody w t s target h = (h', Done s') ->
  targetHeight s' = i64 (target + 1) /\
  exists btime ntxs newer older,
    h' = newer ++ EvBlock target (Ok (btime, ntxs))
               :: EvWaitForHeight target (Ok tt) :: older /\
    blockTimes s' = <[target := btime]>
               (match blockTimes s !! i64 (target - 1) with
                | Some _ => delete (i64 (target - 1)) (blockTimes s)
                | None => blockTimes s
                end) /\
    count is_block newer = 0%nat.
Proof.
  unfold iterationBody. unfold bind at 1.
  destruct (fillBlock w t (accSeq s) h) as [h1 [[sent seq] | e | |]];
    try discriminate.
  unfold bind at 1.
  destruct ((if debugTook t then log LDebug "took %s broadcasting txs" []
             else ret tt) h1) as [h2 [[] | e | |]] eqn:Hlog; try discriminate.
  unfold bind at 1.
  destruct (recordBlock w t target sent (blockTimes s) h2)
    as [h3 [[target' times'] | e | |]] eqn:Hrec; try discriminate.
  simpl. intros [= <- <-]. simpl.
  destruct (recordBlock_done _ _ _ _ _ _ _ _ _ Hrec)
    as (Ht & btime & ntxs & newer & Hh & Htimes & Hnewer).
  split; [exact Ht |]. exists btime, ntxs, newer, h2. auto.
Qed.

(** X2. An iteration that ends without an error has waited for the
    target height settled by its height check, fetched the block of that
    height, kept the time of the block under that height, and left the
    target one above it. *)
Theorem iteration_advances_target (w : World) (t : Task) (s s' : LoopState)
    (h h' : History) (got : Z) :
  Status w h = Ok got ->
  iteration w t s h = (h', Done s') ->
  let target := if got =? i64 (targetHeight s - 1)
                then targetHeight s else i64 (got + 1) in
  targetHeight s' = i64 (target + 1) /\
  exists btime ntxs newer older,
    h' = newer ++ EvBlock target (Ok (btime, ntxs))
               :: EvWaitForHeight target (Ok tt) :: older /\
    blockTimes s' !! target = Some btime /\
    count is_block newer = 0%nat.
Proof.
  intros Hst Hrun target.
  assert (Hbody : exists h0, iterationBody w t s target h0 = (h', Done s')).
  { rewrite iteration_split in Hrun. unfold driftCheck in Hrun.
    rewrite bind_assoc, bind_call, Hst in Hrun. subst target.
    destruct (got =? i64 (targetHeight s - 1)); simpl in Hrun.
    - eexists. exact Hrun.
    - rewrite bind_assoc, bind_log in Hrun. eexists. exact Hrun. }
  destruct Hbody as [h0 Hbody].
  destruct (iterationBody_done _ _ _ _ _ _ _ Hbody)
    as (Ht & btime & ntxs & newer & older & Hh & Htimes & Hnewer).
  split; [exact Ht |]. exists btime, ntxs, newer, older.
  split; [exact Hh |]. split; [| exact Hnewer].
  rewrite Htimes. apply lookup_insert_eq.
Qed.

(** X6. Without a correction of the height, the block times stay at
    one entry: if the map is empty or holds only the time of the height
    before the target, an iteration that ends without an error leaves
    only the time of the target height, which is the height before the
    next target. *)
Theorem iteration_keeps_one_time (w : World) (t : Task) (s s' : LoopState)
    (h h' : History) :
  Status w h = Ok (i64 (targetHeight s - 1)) ->
  iteration w t s h = (h', Done s') ->
  (blockTimes s = ∅ \/
   exists bt, blockTimes s = {[ i64 (targetHeight s - 1) := bt ]}) ->
  exists btime,
    blockTimes s' = {[ targetHeight s := btime ]} /\
    (min_i64 <= targetHeight s < max_i64 ->
     blockTimes s' = {[ i64 (targetHeight s' - 1) := btime ]}).
Proof.
  intros Hst Hrun Htimes.
  assert (Hbody : exists h0,
            iterationBody w t s (targetHeight s) h0 = (h', Done s')).
  { rewrite iteration_split in Hrun. unfold driftCheck in Hrun.
    rewrite bind_assoc, bind_call, Hst, Z.eqb_refl in Hrun. simpl in Hrun.
    eexists. exact Hrun. }
  destruct Hbody as [h0 Hbody].
  destruct (iterationBody_done _ _ _ _ _ _ _ Hbody)
    as (Ht & btime & ntxs & newer & older & Hh & Hmap & Hnewer).
  exists btime.
  assert (Hone : blockTimes s' = {[ targetHeight s := btime ]}).
  { rewrite Hmap. destruct Htimes as [-> | [bt ->]].
    - rewrite lookup_empty. apply insert_empty.
    - rewrite lookup_singleton_eq, delete_singleton_eq. apply insert_empty. }
  split; [exact Hone |]. intros Hr. rewrite Hone, Ht.
  rewrite (i64_small (targetHeight s + 1)) by (unfold min_i64, max_i64 in *; lia).
  rewrite i64_small by (unfold min_i64, max_i64 in *; lia).
  f_equal. lia.
Qed.

Lemma iteration_advances_target_witness :
  targetHeight
    (match snd (iteration world_drift (task0 2 3) (state0 11 9)
                  [EvStatus (Ok 9)]) with
     | Done s' => s'
     | _ => state0 0 0
     end) = 17.
Proof.
  assert (Hrun : iteration world_drift (task0 2 3) (state0 11 9)
                   [EvStatus (Ok 9)] =
                 (fst (iteration world_drift (task0 2 3) (state0 11 9)
                         [EvStatus (Ok 9)]),
                  Done (match snd (iteration world_drift (task0 2 3)
                                     (state0 11 9) [EvStatus (Ok 9)]) with
                        | Done s' => s'
                        | _ => state0 0 0
                        end))).
  { vm_compute. reflexivity. }
  destruct (iteration_advances_target world_drift (task0 2 3) (state0 11 9)
              _ [EvStatus (Ok 9)] _ 15 eq_refl Hrun) as [Htarget _].
  exact Htarget.
Defined.

Lemma iteration_keeps_one_time_witness :
  exists btime,
    blockTimes
      (match snd (iteration world_steady (task0 3 2) (state0 10 7) []) with
       | Done s' => s'
       | _ => state0 0 0
       end) = {[ 10 := btime ]}.
Proof.
  assert (Hrun : iteration world_steady (task0 3 2) (state0 10 7) [] =
                 (fst (iteration world_steady (task0 3 2) (state0 10 7) []),
                  Done (match snd (iteration world_steady (task0 3 2)
                                     (state0 10 7) []) with
                        | Done s' => s'
                        | _ => state0 0 0
                        end))).
  { vm_compute. reflexivity. }
  destruct (iteration_keeps_one_time world_steady (task0 3 2) (state0 10 7)
              _ [] _ eq_refl Hrun (or_introl eq_refl)) as [btime [Hone _]].
  exists btime. exact Hone.
Defined.

(** ** A validated plan runs without a panic *)

Lemma Atoi_range s n : Atoi s = Some n -> min_i64 <= n <= max_i64.
Proof.
  unfold Atoi. destruct s as [| c rest]; [discriminate |].
  set (body := if Ascii.eqb c "-" || Ascii.eqb c "+" then rest
               else String c rest).
  destruct body; [discriminate |].
  destruct (parse_digits _ 0) as [v |]; [| discriminate].
  set (v' := if Ascii.eqb c "-" then - v else v).
  destruct ((min_i64 <=? v') && (v' <=? max_i64)) eqn:Hr; [| discriminate].
  intros [= <-]. apply andb_true_iff in Hr. lia.
Qed.

Lemma returns_fail {A : Type} (e : string) : returns (@fail A e).
Proof. intros h. right. exists e. reflexivity. Qed.

Lemma returns_lift {A : Type} (r : reply A) wrap : returns (lift r wrap).
Proof. destruct r; [apply returns_ret | apply returns_fail]. Qed.

Lemma returns_checkChains chains names msg :
  returns (checkChains chains names msg).
Proof.
  induction names as [| n names IH]; simpl; [apply returns_ret |].
  destruct (chainFlag chains n); simpl; [exact IH | apply returns_fail].
Qed.

Lemma startAndLoop_returns w addr mk tag :
  (forall num, txNum (mk num) <= max_i64 /\ blocks (mk num) <= max_i64) ->
  returns (startAndLoop w addr mk tag).
Proof.
  intros Hmk. unfold startAndLoop.
  apply returns_bind; [apply returns_call | intros account].
  apply returns_bind; [apply returns_call | intros st].
  apply returns_bind; [apply returns_log | intros _].
  apply returns_bind; [apply returns_call | intros _].
  apply returns_bind; [apply returns_log | intros _].
  apply sendLoop_returns; apply Hmk.
Qed.

Lemma parseRun_returns {B : Type} s1 s2 s3 e1 e2 e3 label
    (k : Z * Z * Z -> M B) :
  (forall nblocks ntx nmsg,
     nblocks <= max_i64 -> ntx <= max_i64 -> returns (k (nblocks, ntx, nmsg))) ->
  returns (bind (parseRun s1 s2 s3 e1 e2 e3 label) k).
Proof.
  intros Hk. unfold parseRun.
  destruct (Atoi s1) as [n1 |] eqn:H1;
    [| intros h; right; eexists; reflexivity].
  destruct (Atoi s2) as [n2 |] eqn:H2;
    [| intros h; right; eexists; reflexivity].
  destruct (Atoi s3) as [n3 |] eqn:H3;
    [| intros h; right; eexists; reflexivity].
  intros h. rewrite bind_ret. apply Hk.
  - apply (Atoi_range _ _ H1).
  - apply (Atoi_range _ _ H2).
Qed.

Lemma DstChainsend_returns w accountindex dstchaininfo mainchainibcinfo
    mainchain cfg args :
  length args = 6%nat ->
  (accountindex < length (Mnemonics cfg))%nat ->
  returns (DstChainsend w accountindex dstchaininfo mainchainibcinfo
             mainchain cfg args).
Proof.
  intros Hlen Hidx.
  destruct args as [| a0 [| a1 [| a2 [| a3 [| a4 [| a5 [| a6 args]]]]]]];
    try discriminate.
  unfold DstChainsend.
  apply returns_bind; [apply returns_call | intros _].
  destruct (route mainchainibcinfo dstchaininfo) as [[port channel] recv].
  apply returns_bind; [apply returns_ret | intros a2'].
  apply returns_bind; [apply returns_lift | intros c].
  destruct (nth_error (Mnemonics cfg) accountindex) as [m |] eqn:Hm;
    [| apply nth_error_None in Hm; lia].
  apply returns_bind; [apply returns_ret | intros m'].
  apply returns_bind; [apply returns_lift | intros [addr key]].
  apply returns_bind; [apply returns_ret | intros a3'].
  apply returns_bind; [apply returns_ret | intros a4'].
  apply returns_bind; [apply returns_ret | intros a5'].
  apply returns_bind; [apply returns_ret | intros a0'].
  apply parseRun_returns. intros nblocks ntx nmsg Hb Ht.
  apply startAndLoop_returns. intros num. simpl. split; assumption.
Qed.

Lemma IBCMuiltTransferCmd_done w args h h1 cfg dsts srcs :
  IBCMuiltTransferCmd w args h = (h1, Done (cfg, dsts, srcs)) ->
  length args = 6%nat /\
  (length dsts <= length (Mnemonics cfg))%nat /\
  (forall d, In d dsts -> In d (map ChainId (Chains cfg))) /\
  (forall s, In s srcs -> In s (map ChainId (Chains cfg))).
Proof.
  unfold IBCMuiltTransferCmd, ExactArgs.
  destruct (Nat.eqb (length args) 6) eqn:Hlen; [| discriminate].
  apply Nat.eqb_eq in Hlen. rewrite bind_ret, bind_call.
  destruct (SetLogger w h) as [[] | e]; [| discriminate].
  rewrite bind_call.
  destruct (ConfigRead w _) as [cfg' | e]; [| discriminate].
  destruct args as [| a0 [| a1 args]]; try discriminate.
  change (arg (a0 :: a1 :: args) 0) with (ret (A := string) a0).
  change (arg (a0 :: a1 :: args) 1) with (ret (A := string) a1).
  rewrite bind_ret, bind_checkChains.
  destruct (forallb (chainFlag (Chains cfg')) (Split a0)) eqn:Hsrc;
    [| discriminate].
  rewrite bind_ret, bind_checkChains.
  destruct (forallb (chainFlag (Chains cfg')) (Split a1)) eqn:Hdst;
    [| discriminate].
  destruct (Nat.ltb _ _) eqn:Hsize; [discriminate |].
  intros [= <- <- <- <-]. apply Nat.ltb_ge in Hsize.
  split; [exact Hlen |]. split; [exact Hsize |].
  split; apply all_known; assumption.
Qed.

Lemma SrcChainsend_done w cfg dstchains chainname h h' calls :
  SrcChainsend w cfg dstchains chainname h = (h', Done calls) ->
  exists infos,
    calls = spawnDst 0 (subchainsOf cfg (findChain (Chains cfg) chainname)
                          dstchains)
              infos (findChain (Chains cfg) chainname).
Proof.
  unfold SrcChainsend. rewrite bind_call.
  destruct (NewClient w h _ _) as [[] | e]; [| discriminate].
  rewrite bind_call.
  destruct (AllChainsTrace w _) as [infos | e]; [| discriminate].
  intros [= <- <-]. exists infos. reflexivity.
Qed.

Lemma pickSubchain_length chains mainchain name :
  (length (pickSubchain chains mainchain name) <= 1)%nat.
Proof.
  induction chains as [| c chains IH]; simpl; [lia |].
  destruct (String.eqb name (ChainId mainchain)); simpl; [lia |].
  destruct (String.eqb (ChainId c) name); simpl; [lia | exact IH].
Qed.

Lemma subchainsOf_length cfg mainchain dstchains :
  (length (subchainsOf cfg mainchain dstchains) <= length dstchains)%nat.
Proof.
  unfold subchainsOf. induction dstchains as [| d dstchains IH]; simpl; [lia |].
  rewrite length_app.
  pose proof (pickSubchain_length (Chains cfg) mainchain d). lia.
Qed.

Lemma spawnDst_index subchains infos mainchain c : forall index,
  In c (spawnDst index subchains infos mainchain) ->
  (index <= dc_index c < index + length subchains)%nat.
Proof.
  induction subchains as [| d subchains IH]; intros index; simpl; [intros [] |].
  intros [<- | Hin]; [simpl; lia |].
  apply IH in Hin. lia.
Qed.

(** X8. After the checks of the multi-chain command, no task of any
    source chain fails at run time: the account index of every task that
    [SrcChainsend] starts is below the number of mnemonics, and the
    task's [DstChainsend] ends, from any history of the node, with
    [nil] or a returned error, never with an index out of range. *)
Theorem validated_tasks_return (w : World) (args : list string)
    (h h1 h2 h3 h4 : History) (cfg : Config) (dsts srcs : list string)
    (src : string) (calls : list DstCall) (c : DstCall) :
  IBCMuiltTransferCmd w args h = (h1, Done (cfg, dsts, srcs)) ->
  SrcChainsend w cfg dsts src h2 = (h3, Done calls) ->
  In c calls ->
  (dc_index c < length (Mnemonics cfg))%nat /\
  ((exists s, snd (DstChainsend w (dc_index c) (dc_dstchaininfo c)
                     (dc_mainchainibcinfo c) (dc_mainchain c) cfg args h4)
              = Done s) \/
   (exists e, snd (DstChainsend w (dc_index c) (dc_dstchaininfo c)
                     (dc_mainchainibcinfo c) (dc_mainchain c) cfg args h4)
              = Fail e)).
Proof.
  intros Hcmd Hsrc Hin.
  destruct (IBCMuiltTransferCmd_done _ _ _ _ _ _ _ Hcmd)
    as (Hlen & Hsize & _ & _).
  destruct (SrcChainsend_done _ _ _ _ _ _ _ Hsrc) as [infos ->].
  apply spawnDst_index in Hin.
  pose proof (subchainsOf_length cfg (findChain (Chains cfg) src) dsts) as Hsub.
  assert (Hidx : (dc_index c < length (Mnemonics cfg))%nat) by lia.
  split; [exact Hidx |].
  apply DstChainsend_returns; assumption.
Qed.

Lemma validated_tasks_return_witness :
  (1 < length (Mnemonics cfg3))%nat /\
  ((exists s, snd (DstChainsend world_ok 1 (chain "osmo") [] (chain "gaia")
                     cfg3 ["gaia"; "iris,osmo"; "10"; "1"; "2"; "1"]%string [])
              = Done s) \/
   (exists e, snd (DstChainsend world_ok 1 (chain "osmo") [] (chain "gaia")
                     cfg3 ["gaia"; "iris,osmo"; "10"; "1"; "2"; "1"]%string [])
              = Fail e)).
Proof.
  apply (validated_tasks_return world_ok
           ["gaia"; "iris,osmo"; "10"; "1"; "2"; "1"]%string
           [] [EvConfigRead (Ok cfg3); EvSetLogger (Ok tt)] []
           [EvAllChainsTrace (Ok []); EvNewClient "rpc" "grpc" (Ok tt)] []
           cfg3 ["iris"; "osmo"]%string ["gaia"]%string "gaia"%string
           [ {| dc_index := 0; dc_dstchaininfo := chain "iris";
                dc_mainchainibcinfo := []; dc_mainchain := chain "gaia" |};
             {| dc_index := 1; dc_dstchaininfo := chain "osmo";
                dc_mainchainibcinfo := []; dc_mainchain := chain "gaia" |} ]
           {| dc_index := 1; dc_dstchaininfo := chain "osmo";
              dc_mainchainibcinfo := []; dc_mainchain := chain "gaia" |}).
  - reflexivity.
  - reflexivity.
  - simpl. right. left. reflexivity.
Defined.

(** ** The routing entry a task uses *)

Lemma route_first pre i post dst :
  no_route pre dst = true ->
  ChainId dst = ClientChainId i ->
  route (pre ++ i :: post) dst =
  ("transfer"%string, ChannelId i, DstAddress dst).
Proof.
  unfold no_route. intros Hpre Hid.
  induction pre as [| p pre IH]; simpl in *.
  - rewrite Hid, String.eqb_refl. reflexivity.
  - apply andb_true_iff in Hpre. destruct Hpre as [Hp Hpre].
    apply negb_true_iff in Hp. rewrite Hp. apply IH. exact Hpre.
Qed.

(** X11. When several open channels lead to the destination chain, a
    task uses the first one of the list: every message it builds goes
    over the port "transfer" and the channel of the first entry whose
    client chain is the destination, to the destination's configured
    address. *)
Theorem first_route_is_used (w : World) (accountindex : nat)
    (dst mainchain : IBCchain) (pre post : list OpenChannel) (i : OpenChannel)
    (cfg : Config) (args : list string) (h : History) :
  no_route pre dst = true ->
  ChainId dst = ClientChainId i ->
  exists evs,
    fst (DstChainsend w accountindex dst (pre ++ i :: post) mainchain cfg
           args h) = evs ++ h /\
    Forall (built_with "transfer" (ChannelId i) (DstAddress dst)) evs.
Proof.
  intros Hpre Hid.
  pose proof (DstChainsend_built_with w accountindex dst (pre ++ i :: post)
                mainchain cfg args h) as Hbuilt.
  rewrite (route_first pre i post dst Hpre Hid) in Hbuilt. exact Hbuilt.
Qed.

Lemma first_route_is_used_witness :
  exists evs,
    fst (DstChainsend world_ok 0 (chain "osmo")
           ([ {| ClientChainId := "iris"; ChannelId := "channel-3" |} ] ++
            {| ClientChainId := "osmo"; ChannelId := "channel-7" |} ::
            [ {| ClientChainId := "osmo"; ChannelId := "channel-9" |} ])
           (chain "gaia") cfg3
           ["gaia"; "osmo"; "10"; "1"; "2"; "1"]%string []) = evs ++ [] /\
    Forall (built_with "transfer"
              (ChannelId {| ClientChainId := "osmo"; ChannelId := "channel-7" |})
              (DstAddress (chain "osmo"))) evs.
Proof.
  apply (first_route_is_used world_ok 0 (chain "osmo") (chain "gaia")
           [ {| ClientChainId := "iris"; ChannelId := "channel-3" |} ]
           [ {| ClientChainId := "osmo"; ChannelId := "channel-9" |} ]
           {| ClientChainId := "osmo"; ChannelId := "channel-7" |}
           cfg3 ["gaia"; "osmo"; "10"; "1"; "2"; "1"]%string []).
  - reflexivity.
  - reflexivity.
Defined.

(** ** The single-chain command without the checks of the multi-chain one *)

Lemma findChain_unknown chains name :
  chainFlag chains name = false -> findChain chains name = zero_chain.
Proof.
  induction chains as [| c chains IH]; simpl; [reflexivity |].
  destruct (String.eqb (ChainId c) name); [discriminate | exact IH].
Qed.

Lemma parseRun_emits (Q : Event -> Prop) s1 s2 s3 e1 e2 e3 label :
  emits Q (parseRun s1 s2 s3 e1 e2 e3 label).
Proof.
  unfold parseRun. destruct (Atoi s1); [| apply emits_fail].
  destruct (Atoi s2); [| apply emits_fail].
  destruct (Atoi s3); [apply emits_ret | apply emits_fail].
Qed.

Lemma world_no_mnemonics_setup : setup_ok world_no_mnemonics cfg_no_mnemonics.
Proof. split; intros; try eexists; reflexivity. Qed.

(** X9. With a configuration that holds no mnemonic, the single-chain
    command does not return an error: once the logger is set, the
    configuration read, the node reached, the coin parsed and the three
    run parameters read as integers, it takes the first mnemonic of an
    empty list and stops on the index out of range, before any account is
    asked for and any transaction signed. *)
Theorem single_chain_needs_a_mnemonic (w : World) (cfg : Config)
    (a0 a1 a2 a3 a4 a5 a6 a7 : string) (nblocks ntx nmsg : Z) (h : History) :
  setup_ok w cfg ->
  Mnemonics cfg = [] ->
  Atoi a5 = Some nblocks -> Atoi a6 = Some ntx -> Atoi a7 = Some nmsg ->
  snd (IBCtransferCmd w [a0; a1; a2; a3; a4; a5; a6; a7] h) = Panic /\
  count is_sign (fst (IBCtransferCmd w [a0; a1; a2; a3; a4; a5; a6; a7] h))
  = count is_sign h.
Proof.
  intros Hw Hm H5 H6 H7. unfold IBCtransferCmd, ExactArgs. simpl Nat.eqb.
  cbv iota. rewrite bind_ret, bind_call.
  destruct (so_logger w cfg Hw h) as [[] ->].
  rewrite bind_call, (so_config w cfg Hw).
  change (arg [a0; a1; a2; a3; a4; a5; a6; a7] 0) with (ret (A := string) a0).
  rewrite bind_ret, bind_call.
  destruct (so_client w cfg Hw (EvConfigRead (Ok cfg) :: EvSetLogger (Ok tt) :: h)
              (Rpc (findChain (Chains cfg) a0))
              (Grpc (findChain (Chains cfg) a0))) as [[] ->].
  rewrite bind_call.
  match goal with
  | |- context [GetNetworkChainID w ?hh] =>
    destruct (so_chainid w cfg Hw hh) as [id ->]
  end.
  unfold arg. cbn [nth_error]. repeat (rewrite bind_ret; cbv beta).
  destruct (so_coin w cfg Hw a4) as [c ->]. cbn [lift].
  repeat (rewrite bind_ret; cbv beta). unfold parseRun. rewrite H5, H6, H7, bind_ret.
  rewrite Hm. simpl. rewrite !count_cons. simpl. split; reflexivity.
Qed.

Lemma single_chain_needs_a_mnemonic_witness :
  snd (IBCtransferCmd world_no_mnemonics
         ["gaia"; "transfer"; "channel-0"; "r"; "10uatom"; "2"; "3"; "1"]%string
         []) = Panic /\
  count is_sign
    (fst (IBCtransferCmd world_no_mnemonics
            ["gaia"; "transfer"; "channel-0"; "r"; "10uatom"; "2"; "3"; "1"]%string
            [])) = count is_sign [].
Proof.
  apply (single_chain_needs_a_mnemonic world_no_mnemonics cfg_no_mnemonics
           "gaia" "transfer" "channel-0" "r" "10uatom" "2" "3" "1" 2 3 1 []).
  - exact world_no_mnemonics_setup.
  - reflexivity.
  - reflexivity.
  - reflexivity.
  - reflexivity.
Defined.

Lemma IBCtransferCmd_after_connect w cfg mainchain args :
  emits (fun _ => True)
    (call (GetNetworkChainID w) EvGetNetworkChainID
       (errorf "failed to get chain id: ");;;
     port <- arg args 1;;
     channel <- arg args 2;;
     recv <- arg args 3;;
     a4 <- arg args 4;;
     c <- lift (ParseCoinNormalized w a4) (fun e => e);;
     let c := ibcCoin w c in
     a5 <- arg args 5;;
     a6 <- arg args 6;;
     a7 <- arg args 7;;
     p <- parseRun a5 a6 a7 a5 a6 a7 "msgNum must be integer: ";;
     let '(nblocks, ntx, nmsg) := p in
     mnemonic <- match nth_error (Mnemonics cfg) 0 with
                 | Some m => ret m
                 | None => panic
                 end;;
     acc <- lift (IBCRecoverAccountFromMnemonic w mnemonic (AccountHD mainchain)
                    (AccountaddrPrefix mainchain))
              (errorf "failed to retrieve account from mnemonic: ");;
     let '(addr, key) := acc in
     startAndLoop w addr
       (fun num =>
          {| srcPort := port; srcChannel := channel; receiver := recv;
             coin := c; accAddr := addr; privKey := key; accNum := num;
             blocks := nblocks; txNum := ntx; msgNum := nmsg;
             chainFields := []; debugTook := true |})
       []).
Proof.
  apply emits_bind; [apply emits_call; intros; exact I | intros _].
  apply emits_bind; [apply emits_arg | intros port].
  apply emits_bind; [apply emits_arg | intros channel].
  apply emits_bind; [apply emits_arg | intros recv].
  apply emits_bind; [apply emits_arg | intros a4].
  apply emits_bind; [apply emits_lift | intros c].
  apply emits_bind; [apply emits_arg | intros a5].
  apply emits_bind; [apply emits_arg | intros a6].
  apply emits_bind; [apply emits_arg | intros a7].
  apply emits_bind; [apply parseRun_emits | intros [[nblocks ntx] nmsg]].
  apply emits_bind.
  { destruct (nth_error (Mnemonics cfg) 0);
      [apply emits_ret | apply emits_panic]. }
  intros mnemonic.
  apply emits_bind; [apply emits_lift | intros [addr key]].
  apply startAndLoop_emits; intros; exact I.
Qed.

(** X10. The single-chain command does not check its chain id against
    the configuration: for an id that no configured chain has, it goes on
    with the zero value of a chain and, as its first call to the outside
    after the configuration is read, connects a client to the empty RPC
    and gRPC addresses; whatever follows is added after that call. *)
Theorem unknown_chain_connects_nowhere (w : World) (cfg : Config)
    (a0 : string) (rest : list string) (h : History) :
  length rest = 7%nat ->
  chainFlag (Chains cfg) a0 = false ->
  SetLogger w h = Ok tt ->
  ConfigRead w (EvSetLogger (Ok tt) :: h) = Ok cfg ->
  exists evs r,
    fst (IBCtransferCmd w (a0 :: rest) h) =
    evs ++ EvNewClient "" "" r :: EvConfigRead (Ok cfg)
        :: EvSetLogger (Ok tt) :: h.
Proof.
  intros Hlen Hflag Hlog Hcfg. unfold IBCtransferCmd, ExactArgs.
  cbn [length]. rewrite Hlen. cbn [Nat.eqb]. rewrite bind_ret, bind_call, Hlog.
  rewrite bind_call, Hcfg.
  change (arg (a0 :: rest) 0) with (ret (A := string) a0).
  rewrite bind_ret. cbv beta zeta.
  rewrite (findChain_unknown _ _ Hflag). cbn [Rpc Grpc zero_chain].
  rewrite bind_call.
  destruct (NewClient w _ "" "") as [[] | e].
  - destruct (IBCtransferCmd_after_connect w cfg zero_chain (a0 :: rest)
                (EvNewClient "" "" (Ok tt) :: EvConfigRead (Ok cfg)
                 :: EvSetLogger (Ok tt) :: h)) as (evs & Heq & _).
    exists evs, (Ok tt). exact Heq.
  - exists [], (Err e). reflexivity.
Qed.

Lemma unknown_chain_connects_nowhere_witness :
  exists evs r,
    fst (IBCtransferCmd world_ok
           ("juno" :: ["transfer"; "channel-0"; "r"; "10uatom"; "1"; "1"; "1"])%string
           []) =
    evs ++ [EvNewClient "" "" r; EvConfigRead (Ok cfg3); EvSetLogger (Ok tt)].
Proof.
  apply (unknown_chain_connects_nowhere world_ok cfg3 "juno"
           ["transfer"; "channel-0"; "r"; "10uatom"; "1"; "1"; "1"]%string []).
  - reflexivity.
  - reflexivity.
  - reflexivity.
  - reflexivity.
Defined.

(** ** The account a task signs with *)

Lemma SeqLog_none_yet start evs c :
  SeqLog start evs (Some c) -> count is_broadcast evs = 0%nat -> c = start.
Proof.
  intros Hlog. remember (Some c) as cur eqn:Hcur. revert c Hcur.
  induction Hlog as [| e h cur He Hlog IH | s tx code h Hlog IH
                     | s tx e h Hlog IH]; intros c Hcur Hcount.
  - injection Hcur as ->. reflexivity.
  - apply count_zero_tail in Hcount. apply IH; assumption.
  - apply count_zero_head in Hcount. discriminate.
  - discriminate.
Qed.

Lemma SeqLog_first start evs cur :
  SeqLog start evs cur ->
  forall newer s tx r older,
    evs = newer ++ EvBroadcastTx s tx r :: older ->
    count is_broadcast older = 0%nat ->
    s = start.
Proof.
  induction 1 as [| e h cur He Hlog IH | s0 tx0 code h Hlog IH
                  | s0 tx0 e h Hlog IH];
    intros newer s tx r older Heq Hold.
  - destruct newer; discriminate.
  - destruct newer as [| n newer]; simpl in Heq.
    + injection Heq as -> _. discriminate.
    + injection Heq as _ Heq. eapply IH; eassumption.
  - destruct newer as [| n newer]; simpl in Heq.
    + injection Heq as -> _ _ ->. eapply SeqLog_none_yet; eassumption.
    + injection Heq as _ Heq. eapply IH; eassumption.
  - destruct newer as [| n newer]; simpl in Heq.
    + injection Heq as -> _ _ ->. eapply SeqLog_none_yet; eassumption.
    + injection Heq as _ Heq. eapply IH; eassumption.
Qed.

Lemma before_sending_signed_as num evs :
  Forall before_sending evs -> Forall (signed_as num) evs.
Proof.
  intros H. eapply Forall_impl; [exact H |].
  intros e [_ Hs]. destruct e; try exact I. discriminate.
Qed.

Lemma before_sending_quiet evs :
  Forall before_sending evs -> Forall (fun e => is_broadcast e = false) evs.
Proof. intros H. eapply Forall_impl; [exact H |]. intros e [Hb _]. exact Hb. Qed.

Lemma from_account_bind {A B : Type} seq num (m : M A) (k : A -> M B) :
  emits before_sending m ->
  (forall a, from_account seq num (k a)) ->
  from_account seq num (bind m k).
Proof.
  intros Hm Hk h. destruct (Hm h) as (evs & Heq & Hq).
  pose proof (SeqLog_quiet seq evs (before_sending_quiet evs Hq)) as Hlog.
  pose proof (before_sending_signed_as num evs Hq) as Hsig.
  unfold bind. destruct (m h) as [h1 o]. simpl in Heq. subst h1.
  destruct o as [a | e | |];
    try solve [exists evs, (Some seq); split; [reflexivity | split; assumption]].
  destruct (Hk a (evs ++ h)) as (evs' & cur & Heq' & Hlog' & Hsig').
  exists (evs' ++ evs), cur. split; [rewrite Heq'; apply app_assoc |].
  split; [eapply SeqLog_app; eassumption | apply Forall_app; split; assumption].
Qed.

Lemma from_account_quiet {A : Type} seq num (m : M A) :
  emits before_sending m -> from_account seq num m.
Proof.
  intros Hm h. destruct (Hm h) as (evs & Heq & Hq).
  exists evs, (Some seq). split; [exact Heq |].
  split; [apply SeqLog_quiet, before_sending_quiet, Hq
         | apply before_sending_signed_as, Hq].
Qed.

Lemma loop_event_signed_as t e : loop_event t e -> signed_as (accNum t) e.
Proof.
  intros [e' [] | e' [r | msgs e'' [] | | e'' []]]; simpl; auto.
Qed.

Lemma sendLoop_from_account w t s :
  0 <= accSeq s < 2 ^ 64 ->
  from_account (accSeq s) (accNum t) (sendLoop w t s).
Proof.
  intros Hrange h.
  destruct (blockLoop_keeps_seq w t (Z.to_nat (blocks t)) 0 s Hrange h)
    as (evs & Heq & Hres).
  destruct (sendLoop_emits w t s h) as (evs' & Heq' & Hev).
  fold (sendLoop w t s) in Heq, Hres. rewrite Heq in Heq'.
  apply app_inv_tail in Heq'. subst evs'.
  assert (Hlog : exists cur, SeqLog (accSeq s) evs cur).
  { destruct (snd (sendLoop w t s h)); try exact Hres.
    destruct Hres as [Hlog _]. eexists. exact Hlog. }
  destruct Hlog as [cur Hlog]. exists evs, cur.
  split; [exact Heq |]. split; [exact Hlog |].
  eapply Forall_impl; [exact Hev |]. intros e. apply loop_event_signed_as.
Qed.

Lemma startAndLoop_from_account w addr mk tag seq num :
  (forall h, GetBaseAccountInfo w h addr = Ok (seq, num)) ->
  from_account (u64 seq) (accNum (mk (u64 num))) (startAndLoop w addr mk tag).
Proof.
  intros Hacc h. unfold startAndLoop. rewrite bind_call, Hacc.
  cbn [fst snd].
  assert (Hrest : from_account (u64 seq) (accNum (mk (u64 num)))
            (st <- call (Status w) EvStatus (errorf "get status: ");;
             log LInfo
               "current block height is %d, waiting for the next block to be committed"
               (FInt "height" st :: tag);;;
             call (fun h => WaitForHeight w h (i64 (i64 (st + 2) - 1)))
               (EvWaitForHeight (i64 (i64 (st + 2) - 1)))
               (errorf "wait for height: ");;;
             log LInfo
               "starting simulation #%d, blocks = %d, num txs per block = %d"
               (FInt "simulation" (i64 (blocks (mk (u64 num)) + 1))
                :: FInt "blocks" (blocks (mk (u64 num)))
                :: FInt "txs" (txNum (mk (u64 num))) :: tag);;;
             sendLoop w (mk (u64 num))
               {| targetHeight := i64 (st + 2); accSeq := u64 seq;
                  blockTimes := ∅ |})).
  { apply from_account_bind;
      [apply emits_call; intros; split; reflexivity | intros st].
    apply from_account_bind;
      [apply emits_log; split; reflexivity | intros _].
    apply from_account_bind;
      [apply emits_call; intros; split; reflexivity | intros _].
    apply from_account_bind;
      [apply emits_log; split; reflexivity | intros _].
    apply (sendLoop_from_account w (mk (u64 num))
             {| targetHeight := i64 (st + 2); accSeq := u64 seq;
                blockTimes := ∅ |}).
    apply u64_range. }
  destruct (Hrest (EvGetBaseAccountInfo addr (Ok (seq, num)) :: h))
    as (evs & cur & Heq & Hlog & Hsig).
  exists (evs ++ [EvGetBaseAccountInfo addr (Ok (seq, num))]), cur.
  split; [rewrite <- app_assoc; exact Heq |].
  split.
  - eapply SeqLog_app; [| exact Hlog].
    apply sl_other; [reflexivity | apply sl_nil].
  - apply Forall_app. split; [exact Hsig | repeat constructor].
Qed.

Lemma from_account_bind_ret {A B : Type} seq num (a : A) (k : A -> M B) :
  from_account seq num (k a) -> from_account seq num (bind (ret a) k).
Proof. intros H h. exact (H h). Qed.

Lemma DstChainsend_from_account w accountindex dst infos mainchain cfg args
    mnemonic addr key seq num :
  nth_error (Mnemonics cfg) accountindex = Some mnemonic ->
  IBCRecoverAccountFromMnemonic w mnemonic (AccountHD mainchain)
    (AccountaddrPrefix mainchain) = Ok (addr, key) ->
  (forall h, GetBaseAccountInfo w h addr = Ok (seq, num)) ->
  from_account (u64 seq) (u64 num)
    (DstChainsend w accountindex dst infos mainchain cfg args).
Proof.
  intros Hm Hrec Hacc. unfold DstChainsend.
  apply from_account_bind;
    [apply emits_call; intros; split; reflexivity | intros _].
  destruct (route infos dst) as [[port channel] recv].
  apply from_account_bind; [apply emits_arg | intros a2].
  apply from_account_bind; [apply emits_lift | intros c].
  rewrite Hm. apply from_account_bind_ret.
  rewrite Hrec. apply from_account_bind_ret. cbv iota.
  apply from_account_bind; [apply emits_arg | intros a3].
  apply from_account_bind; [apply emits_arg | intros a4].
  apply from_account_bind; [apply emits_arg | intros a5].
  apply from_account_bind; [apply emits_arg | intros a0].
  apply from_account_bind; [apply parseRun_emits | intros [[nblocks ntx] nmsg]].
  apply (startAndLoop_from_account w addr
           (fun n =>
              {| srcPort := port; srcChannel := channel; receiver := recv;
                 coin := ibcCoin w c; accAddr := addr; privKey := key;
                 accNum := n; blocks := nblocks; txNum := ntx; msgNum := nmsg;
                 chainFields := [FStr "srcchain" (ChainId mainchain);
                                 FStr "dstchain" (ChainId dst)];
                 debugTook := false |})
           [FStr "chain" (ChainId mainchain)] seq num Hacc).
Qed.

(** X12. A task signs from the account of its own mnemonic: when the
    mnemonic at the task's account index gives the address [addr] and the
    node reports the sequence number [seq] and the account number [num]
    for that address, the first transaction the task broadcasts is signed
    at [seq], and every signature of the task is made with [num], both
    as [uint64] values. *)
Theorem task_signs_from_its_account (w : World) (accountindex : nat)
    (dst mainchain : IBCchain) (infos : list OpenChannel) (cfg : Config)
    (args : list string) (h : History) (mnemonic addr key : string)
    (seq num : Z) :
  nth_error (Mnemonics cfg) accountindex = Some mnemonic ->
  IBCRecoverAccountFromMnemonic w mnemonic (AccountHD mainchain)
    (AccountaddrPrefix mainchain) = Ok (addr, key) ->
  (forall h', GetBaseAccountInfo w h' addr = Ok (seq, num)) ->
  exists evs,
    fst (DstChainsend w accountindex dst infos mainchain cfg args h)
    = evs ++ h /\
    (forall newer s tx r older,
       evs = newer ++ EvBroadcastTx s tx r :: older ->
       count is_broadcast older = 0%nat ->
       s = u64 seq) /\
    (forall s n msgs r, In (EvIbcSign s n msgs r) evs -> n = u64 num).
Proof.
  intros Hm Hrec Hacc.
  destruct (DstChainsend_from_account w accountindex dst infos mainchain cfg
              args mnemonic addr key seq num Hm Hrec Hacc h)
    as (evs & cur & Heq & Hlog & Hsig).
  exists evs. split; [exact Heq |]. split.
  - intros newer s tx r older Hsplit Hold.
    eapply SeqLog_first; eassumption.
  - intros s n msgs r Hin. rewrite List.Forall_forall in Hsig.
    exact (Hsig _ Hin).
Qed.

Lemma task_signs_from_its_account_witness :
  exists evs,
    fst (DstChainsend world_ok 1 (chain "osmo") routes_osmo (chain "gaia")
           cfg3 ["gaia"; "osmo"; "10"; "1"; "2"; "1"]%string [])
    = evs ++ [] /\
    (forall newer s tx r older,
       evs = newer ++ EvBroadcastTx s tx r :: older ->
       count is_broadcast older = 0%nat ->
       s = u64 7) /\
    (forall s n msgs r, In (EvIbcSign s n msgs r) evs -> n = u64 3).
Proof.
  apply (task_signs_from_its_account world_ok 1 (chain "osmo") (chain "gaia")
           routes_osmo cfg3 ["gaia"; "osmo"; "10"; "1"; "2"; "1"]%string []
           "m1" "cosmosm1" "m1" 7 3).
  - reflexivity.
  - reflexivity.
  - intros h'. reflexivity.
Defined.

(** ** When the time of the block before is missing *)

Lemma i64_range z : min_i64 <= i64 z <= max_i64.
Proof.
  unfold i64, min_i64, max_i64.
  pose proof (Z.mod_pos_bound (z + 2 ^ 63) (2 ^ 64)). lia.
Qed.

Lemma i64_succ_pred z : min_i64 <= z <= max_i64 -> i64 (i64 (z + 1) - 1) = z.
Proof.
  intros Hz. unfold i64.
  replace ((z + 1 + 2 ^ 63) mod 2 ^ 64 - 2 ^ 63 - 1 + 2 ^ 63)
    with ((z + 1 + 2 ^ 63) mod 2 ^ 64 - 1) by lia.
  rewrite Zminus_mod_idemp_l.
  replace (z + 1 + 2 ^ 63 - 1) with (z + 2 ^ 63) by lia.
  unfold min_i64, max_i64 in Hz. rewrite Z.mod_small; lia.
Qed.

Lemma atmost_quiet {A : Type} (p : Event -> bool) (m : M A) :
  emits (fun e => p e = false) m -> atmost p 0 m.
Proof.
  intros Hm h. destruct (Hm h) as (evs & Heq & Hq).
  exists evs. split; [exact Heq |].
  rewrite (count_zero_Forall p evs Hq). lia.
Qed.

Lemma atmost_bind {A B : Type} (p : Event -> bool) n1 n2 (m : M A)
    (k : A -> M B) :
  atmost p n1 m -> (forall a, atmost p n2 (k a)) ->
  atmost p (n1 + n2) (bind m k).
Proof.
  intros Hm Hk h. destruct (Hm h) as (evs & Heq & Hc).
  unfold bind. destruct (m h) as [h1 o]. simpl in Heq. subst h1.
  destruct o as [a | e | |];
    try solve [exists evs; split; [reflexivity | lia]].
  destruct (Hk a (evs ++ h)) as (evs' & Heq' & Hc').
  exists (evs' ++ evs). split; [rewrite Heq'; apply app_assoc |].
  rewrite count_app. lia.
Qed.

Lemma atmost_bind_r {A B : Type} (p : Event -> bool) n (m : M A)
    (k : A -> M B) :
  atmost p 0 m -> (forall a, atmost p n (k a)) -> atmost p n (bind m k).
Proof. apply (atmost_bind p 0 n). Qed.

Lemma atmost_bind_l {A B : Type} (p : Event -> bool) n (m : M A)
    (k : A -> M B) :
  atmost p n m -> (forall a, atmost p 0 (k a)) -> atmost p n (bind m k).
Proof.
  intros Hm Hk. rewrite <- (Nat.add_0_r n). apply atmost_bind; assumption.
Qed.

Lemma recordBlock_atmost_past w t target sent times :
  atmost is_past_warning (missing_past times target)
    (recordBlock w t target sent times).
Proof.
  intros h. unfold recordBlock, missing_past. rewrite bind_call.
  destruct (WaitForHeight w h target) as [[] | e];
    [| eexists [_]; split; [reflexivity | rewrite !count_cons, count_nil; simpl; lia]].
  rewrite bind_call.
  destruct (Block w _ target) as [[btime ntxs] | e];
    [| eexists [_; _]; split;
       [reflexivity | rewrite !count_cons, count_nil; simpl; lia]].
  destruct (times !! i64 (target - 1)) as [bt |].
  - eexists [_; _; _]. split; [reflexivity |].
    rewrite !count_cons, count_nil. simpl. lia.
  - eexists [_; _; _; _]. split; [reflexivity |].
    rewrite !count_cons, count_nil. simpl. lia.
Qed.

Lemma fillLoop_atmost_past w t fuel sent seq :
  atmost is_past_warning 0 (fillLoop w t fuel sent seq).
Proof.
  revert sent seq.
  induction fuel as [| fuel IH]; intros sent seq; simpl;
    destruct (sent <? txNum t);
    try (apply atmost_quiet; first [apply emits_ret | apply emits_nofuel]).
  apply atmost_bind_r;
    [apply atmost_quiet, emits_call; intros; reflexivity | intros msgs].
  apply atmost_bind_r.
  - apply atmost_quiet.
    eapply emits_weaken; [| apply signLoop_emits].
    intros e []; reflexivity.
  - intros [[sent' seq'] []]; [apply atmost_quiet, emits_ret | apply IH].
Qed.

Lemma iterationBody_atmost_past w t s target :
  atmost is_past_warning (missing_past (blockTimes s) target)
    (iterationBody w t s target).
Proof.
  unfold iterationBody.
  apply atmost_bind_r; [apply fillLoop_atmost_past | intros [sent seq]].
  apply atmost_bind_r.
  { apply atmost_quiet. destruct (debugTook t);
      [apply emits_log; reflexivity | apply emits_ret]. }
  intros _.
  apply atmost_bind_l; [apply recordBlock_atmost_past | intros [target' times']].
  apply atmost_quiet, emits_ret.
Qed.

Lemma missing_past_le times target : (missing_past times target <= 1)%nat.
Proof. unfold missing_past. destruct (times !! i64 (target - 1)); lia. Qed.

Lemma iterationBody_past w t s target h :
  min_i64 <= target <= max_i64 ->
  exists evs,
    fst (iterationBody w t s target h) = evs ++ h /\
    (count is_past_warning evs <= missing_past (blockTimes s) target)%nat /\
    count is_drift_warning evs = 0%nat /\
    forall s', snd (iterationBody w t s target h) = Done s' ->
      min_i64 <= targetHeight s' <= max_i64 /\
      missing_past (blockTimes s') (targetHeight s') = 0%nat.
Proof.
  intros Hrange.
  destruct (iterationBody_atmost_past w t s target h) as (evs & Heq & Hc).
  destruct (iterationBody_emits w t s target h) as (evs' & Heq' & Hev).
  rewrite Heq in Heq'. apply app_inv_tail in Heq'. subst evs'.
  exists evs. split; [exact Heq |]. split; [exact Hc |]. split.
  { apply count_zero_Forall. eapply Forall_impl; [exact Hev |].
    apply body_event_no_drift_warning. }
  intros s' Hdone.
  destruct (iterationBody w t s target h) as [h' o] eqn:Hrun.
  simpl in Hdone. subst o.
  destruct (iterationBody_done _ _ _ _ _ _ _ Hrun)
    as (Ht & btime & ntxs & newer & older & _ & Hmap & _).
  split; [rewrite Ht; apply i64_range |].
  unfold missing_past. rewrite Ht, (i64_succ_pred target Hrange).
  rewrite Hmap, lookup_insert_eq. reflexivity.
Qed.

Lemma iteration_past w t s h :
  min_i64 <= targetHeight s <= max_i64 ->
  exists evs,
    fst (iteration w t s h) = evs ++ h /\
    (count is_past_warning evs <=
     count is_drift_warning evs
     + missing_past (blockTimes s) (targetHeight s))%nat /\
    forall s', snd (iteration w t s h) = Done s' ->
      min_i64 <= targetHeight s' <= max_i64 /\
      missing_past (blockTimes s') (targetHeight s') = 0%nat.
Proof.
  intros Hrange. rewrite iteration_split. unfold driftCheck.
  rewrite bind_assoc, bind_call.
  destruct (Status w h) as [got | e].
  2: { exists [EvStatus (Err e)]. split; [reflexivity |].
       split; [rewrite !count_cons, !count_nil; simpl; lia |].
       intros s' Hdone. discriminate. }
  destruct (got =? i64 (targetHeight s - 1)); simpl negb; cbv iota.
  - rewrite bind_ret.
    destruct (iterationBody_past w t s (targetHeight s)
                (EvStatus (Ok got) :: h) Hrange)
      as (evs & Heq & Hp & Hd & Hdone).
    exists (evs ++ [EvStatus (Ok got)]).
    split; [rewrite <- app_assoc; exact Heq |].
    split; [| exact Hdone].
    rewrite !count_app, !count_cons, !count_nil. simpl. lia.
  - rewrite bind_assoc, bind_log, bind_ret.
    destruct (iterationBody_past w t s (i64 (got + 1))
                (EvLog LWarn "mismatching block height"
                   [FInt "expected" (i64 (targetHeight s - 1));
                    FInt "got" got]
                 :: EvStatus (Ok got) :: h) (i64_range (got + 1)))
      as (evs & Heq & Hp & Hd & Hdone).
    exists (evs ++ [EvLog LWarn "mismatching block height"
                      [FInt "expected" (i64 (targetHeight s - 1));
                       FInt "got" got];
                    EvStatus (Ok got)]).
    split; [rewrite <- app_assoc; exact Heq |].
    split; [| exact Hdone].
    pose proof (missing_past_le (blockTimes s) (i64 (got + 1))).
    rewrite !count_app, !count_cons, !count_nil. simpl. lia.
Qed.

Lemma blockLoop_past w t fuel : forall i s h,
  min_i64 <= targetHeight s <= max_i64 ->
  exists evs,
    fst (blockLoop w t fuel i s h) = evs ++ h /\
    (count is_past_warning evs <=
     count is_drift_warning evs
     + missing_past (blockTimes s) (targetHeight s))%nat.
Proof.
  induction fuel as [| fuel IH]; intros i s h Hrange; simpl;
    destruct (i <? blocks t);
    try solve [exists []; split; [reflexivity | rewrite !count_nil; lia]].
  unfold bind.
  destruct (iteration_past w t s h Hrange) as (evs & Heq & Hc & Hdone).
  destruct (iteration w t s h) as [h1 o]. simpl in Heq, Hdone. subst h1.
  destruct o as [s' | e | |];
    try solve [exists evs; split; [reflexivity | exact Hc]].
  destruct (Hdone s' eq_refl) as [Hrange' Hmiss].
  destruct (IH (i64 (i + 1)) s' (evs ++ h) Hrange') as (evs2 & Heq2 & Hc2).
  exists (evs2 ++ evs). split; [rewrite Heq2; apply app_assoc |].
  rewrite !count_app. lia.
Qed.

(** X13. The warning "past block time not found" has two causes only,
    the first block of a run and a correction of the height: in what a
    send loop adds to the history, from a target height within [int64],
    there are at most as many of these warnings as warnings of a
    mismatching height, and one more when the loop starts without the
    time of the block before its first target. *)
Theorem past_warning_only_after_drift (w : World) (t : Task) (s : LoopState)
    (h evs : History) :
  min_i64 <= targetHeight s <= max_i64 ->
  fst (sendLoop w t s h) = evs ++ h ->
  (count is_past_warning evs <=
   count is_drift_warning evs
   + missing_past (blockTimes s) (targetHeight s))%nat.
Proof.
  intros Hrange Hrun.
  destruct (blockLoop_past w t (Z.to_nat (blocks t)) 0 s h Hrange)
    as (evs' & Heq & Hc).
  fold (sendLoop w t s) in Heq. rewrite Hrun in Heq.
  apply app_inv_tail in Heq. subst evs'. exact Hc.
Qed.

Lemma past_warning_only_after_drift_witness :
  (count is_past_warning run_drift <=
   count is_drift_warning run_drift
   + missing_past (blockTimes (state0 10 7)) (targetHeight (state0 10 7)))%nat.
Proof.
  apply (past_warning_only_after_drift world_drift (task0 2 3) (state0 10 7)
           [] run_drift).
  - simpl. unfold min_i64, max_i64. lia.
  - unfold run_drift. rewrite app_nil_r. reflexivity.
Defined.

(** ** The transactions of a whole run *)

Lemma delivers_quiet {A : Type} (m : M A) :
  emits (fun e => is_broadcast e = false) m -> delivers 0 0 m.
Proof.
  intros Hm h. destruct (Hm h) as (evs & Heq & Hq).
  exists evs. split; [exact Heq |]. intros a _.
  assert (Hc : count is_counted evs = 0%nat).
  { apply count_zero_Forall. eapply Forall_impl; [exact Hq |].
    intros e. apply is_counted_broadcast. }
  assert (Hs : count is_saturation evs = 0%nat).
  { apply count_zero_Forall. eapply Forall_impl; [exact Hq |].
    intros e He. destruct e; try reflexivity. discriminate. }
  rewrite Hc, Hs. repeat split; lia.
Qed.

Lemma delivers_bind {A B : Type} n1 k1 n2 k2 (m : M A) (k : A -> M B) :
  delivers n1 k1 m -> (forall a, delivers n2 k2 (k a)) ->
  delivers (n1 + n2) (k1 + k2) (bind m k).
Proof.
  intros Hm Hk h. destruct (Hm h) as (evs & Heq & Hc).
  unfold bind. destruct (m h) as [h1 o]. simpl in Heq, Hc. subst h1.
  destruct o as [a | e | |];
    try solve [exists evs; split; [reflexivity | intros b; discriminate]].
  destruct (Hk a (evs ++ h)) as (evs' & Heq' & Hc').
  exists (evs' ++ evs). split; [rewrite Heq'; apply app_assoc |].
  intros b Hb. destruct (Hc a eq_refl) as (H1 & H2 & H3).
  destruct (Hc' b Hb) as (H1' & H2' & H3').
  rewrite !count_app. repeat split; lia.
Qed.

Lemma delivers_bind_r {A B : Type} n k0 (m : M A) (k : A -> M B) :
  delivers 0 0 m -> (forall a, delivers n k0 (k a)) ->
  delivers n k0 (bind m k).
Proof. apply (delivers_bind 0 0 n k0). Qed.

Lemma delivers_bind_l {A B : Type} n k0 (m : M A) (k : A -> M B) :
  delivers n k0 m -> (forall a, delivers 0 0 (k a)) ->
  delivers n k0 (bind m k).
Proof.
  intros Hm Hk. rewrite <- (Nat.add_0_r n), <- (Nat.add_0_r k0).
  apply delivers_bind; assumption.
Qed.

Lemma fillBlock_delivers w t seq :
  0 <= txNum t <= max_i64 ->
  delivers (Z.to_nat (txNum t)) 1 (fillBlock w t seq).
Proof.
  intros Htx h. unfold fillBlock.
  destruct (fillLoop_count w t (Z.to_nat (txNum t)) 0 seq h)
    as (evs & Heq & Hres); [unfold min_i64; lia | lia | lia |].
  exists evs. split; [exact Heq |]. intros [sent' seq'] Hdone.
  rewrite Hdone in Hres. destruct Hres as (Hsent & Hle & Hiff & Hstop).
  split; [lia |]. split; [| intros Hzero; apply Hiff in Hzero; lia].
  destruct (Nat.eq_dec (count is_saturation evs) 0%nat) as [Hz | Hnz]; [lia |].
  destruct (Hstop Hnz) as (s0 & tx & rest & -> & Hrest).
  rewrite !count_cons, Hrest. simpl. lia.
Qed.

Lemma iteration_delivers w t s :
  0 <= txNum t <= max_i64 ->
  delivers (Z.to_nat (txNum t)) 1 (iteration w t s).
Proof.
  intros Htx. rewrite iteration_split.
  apply delivers_bind_r.
  { apply delivers_quiet. eapply emits_weaken; [| apply driftCheck_emits].
    intros e []; reflexivity. }
  intros target. unfold iterationBody.
  apply delivers_bind_l; [apply fillBlock_delivers; exact Htx |].
  intros [sent seq]. apply delivers_bind_r.
  { apply delivers_quiet. destruct (debugTook t);
      [apply emits_log; reflexivity | apply emits_ret]. }
  intros _. apply delivers_bind_r.
  { apply delivers_quiet. eapply emits_weaken; [| apply recordBlock_emits].
    intros e []; reflexivity. }
  intros [target' times']. apply delivers_quiet, emits_ret.
Qed.

Lemma blockLoop_delivers w t fuel : forall i s,
  0 <= txNum t <= max_i64 -> 0 <= i -> blocks t <= max_i64 ->
  delivers (Z.to_nat (blocks t - i) * Z.to_nat (txNum t))
    (Z.to_nat (blocks t - i)) (blockLoop w t fuel i s).
Proof.
  induction fuel as [| fuel IH]; intros i s Htx Hi Hb; simpl;
    destruct (i <? blocks t) eqn:Hlt.
  - intros h. exists []. split; [reflexivity | intros a; discriminate].
  - apply Z.ltb_ge in Hlt. replace (Z.to_nat (blocks t - i)) with 0%nat by lia.
    apply delivers_quiet, emits_ret.
  - apply Z.ltb_lt in Hlt.
    replace (Z.to_nat (blocks t - i))
      with (1 + Z.to_nat (blocks t - (i + 1)))%nat by lia.
    replace ((1 + Z.to_nat (blocks t - (i + 1))) * Z.to_nat (txNum t))%nat
      with (Z.to_nat (txNum t)
            + Z.to_nat (blocks t - (i + 1)) * Z.to_nat (txNum t))%nat by lia.
    apply delivers_bind; [apply iteration_delivers; exact Htx |].
    intros s'. rewrite i64_small by (unfold min_i64, max_i64 in *; lia).
    apply IH; lia.
  - apply Z.ltb_ge in Hlt. replace (Z.to_nat (blocks t - i)) with 0%nat by lia.
    apply delivers_quiet, emits_ret.
Qed.

(** X14. A send loop that ends without an error has made at most
    [blocks] times [txNum] broadcasts that count as sent, and at most one
    broadcast per block was rejected for a full mempool; when none was
    rejected it has made exactly [blocks] times [txNum] of them. *)
Theorem sendLoop_throughput (w : World) (t : Task) (s s' : LoopState)
    (h evs : History) :
  0 <= txNum t <= max_i64 ->
  blocks t <= max_i64 ->
  sendLoop w t s h = (evs ++ h, Done s') ->
  (count is_counted evs <= Z.to_nat (blocks t) * Z.to_nat (txNum t))%nat /\
  (count is_saturation evs <= Z.to_nat (blocks t))%nat /\
  (count is_saturation evs = 0%nat ->
   count is_counted evs = (Z.to_nat (blocks t) * Z.to_nat (txNum t))%nat).
Proof.
  intros Htx Hb Hrun.
  destruct (blockLoop_delivers w t (Z.to_nat (blocks t)) 0 s Htx
              (Z.le_refl 0) Hb h) as (evs' & Heq & Hc).
  fold (sendLoop w t s) in Heq, Hc. rewrite Hrun in Heq, Hc.
  simpl in Heq, Hc. apply app_inv_tail in Heq. subst evs'.
  rewrite Z.sub_0_r in Hc. exact (Hc s' eq_refl).
Qed.

Lemma sendLoop_throughput_witness :
  (count is_counted run_drift <= Z.to_nat 2 * Z.to_nat 3)%nat /\
  (count is_saturation run_drift <= Z.to_nat 2)%nat /\
  (count is_saturation run_drift = 0%nat ->
   count is_counted run_drift = (Z.to_nat 2 * Z.to_nat 3)%nat).
Proof.
  apply (sendLoop_throughput world_drift (task0 2 3) (state0 10 7)
           (match snd (sendLoop world_drift (task0 2 3) (state0 10 7) []) with
            | Done s' => s'
            | _ => state0 0 0
            end) [] run_drift).
  - simpl. unfold max_i64. lia.
  - simpl. unfold max_i64. lia.
  - vm_compute. reflexivity.
Defined.
